(** * PromptDJ MIDI: the weight knob and the prompt-state manager

    A shallow embedding of [src/components/WeightKnob.ts] and
    [src/components/PromptDjMidi.ts], followed by the properties of the
    control/state core that the specification states about them.

    Conventions of the embedding.
    - A JavaScript [number] is an element of a type carrying the operations
      of the [Number] interface below.  Two instances are given: exact
      rational arithmetic ([Qc]), in which the specification's formulas are
      written, and IEEE-754 binary64 (Rocq's primitive [float]), which is
      what the engine computes with.  The handlers are written once, over
      the interface.
    - DOM events that a handler dispatches are returned next to the new
      component state, in dispatch order.
    - Objects that the code shares by reference ([Map]s and [Prompt]
      records) live in an explicit store and are named by locations.
    - A JavaScript string is held as its UTF-8 encoding, one [ascii] per
      byte.
    - [JSON.parse] and [JSON.stringify] are built-ins of the engine; the
      component is embedded over a record that supplies them, and the
      dialogs [prompt] and [confirm] are inputs of the handlers that open
      them. *)

From Stdlib Require Import ZArith QArith Qcanon Lqa Floats String Ascii DecimalString List Bool Lia.
From Stdlib Require HexadecimalString DecimalN DecimalPos.
From stdpp Require Import base option list gmap strings.
Import ListNotations.

#[local] Set Warnings "-inexact-float,-clear-no-such-hyp".
#[local] Open Scope string_scope.
#[local] Open Scope list_scope.

(* ================================================================== *)
(** ** JavaScript numbers *)
(* ================================================================== *)

Module JsNumber.

(** The operations on [number] that the two components use. *)
Class Number (num : Type) := {
  of_int : Z -> num;              (* integer literals: 0, 1, 2 *)
  lit_0_01 : num;                 (* the literal 0.01 *)
  lit_neg_0_0025 : num;           (* the literal -0.0025 *)
  add : num -> num -> num;
  sub : num -> num -> num;
  mul : num -> num -> num;
  div : num -> num -> num;
  Math_max : num -> num -> num;
  Math_min : num -> num -> num;
}.

(** *** Exact rationals *)

Definition Qcleb (a b : Qc) : bool := Qle_bool a b.

Definition Qc_max (a b : Qc) : Qc := if Qcleb a b then b else a.
Definition Qc_min (a b : Qc) : Qc := if Qcleb a b then a else b.

#[export] Instance Qc_Number : Number Qc := {
  of_int z := Q2Qc (inject_Z z);
  lit_0_01 := Q2Qc (1 # 100);
  lit_neg_0_0025 := Q2Qc (-25 # 10000);
  add := Qcplus;
  sub := Qcminus;
  mul := Qcmult;
  div := Qcdiv;
  Math_max := Qc_max;
  Math_min := Qc_min;
}.

(** *** IEEE-754 binary64 *)

Definition float_of_Z (z : Z) : float :=
  SF2Prim (binary_normalize prec emax z 0 false).

(** [Math.max]: NaN if either argument is NaN, and +0 is larger than -0. *)
Definition float_max (a b : float) : float :=
  if (is_nan a || is_nan b)%bool then nan
  else if (a <? b)%float then b
  else if (b <? a)%float then a
  else if get_sign a then b else a.

(** [Math.min]: NaN if either argument is NaN, and -0 is smaller than +0. *)
Definition float_min (a b : float) : float :=
  if (is_nan a || is_nan b)%bool then nan
  else if (a <? b)%float then a
  else if (b <? a)%float then b
  else if get_sign a then a else b.

Definition binary64_Number : Number float := {|
  of_int := float_of_Z;
  lit_0_01 := 0.01%float;
  lit_neg_0_0025 := (-0.0025)%float;
  add := PrimFloat.add;
  sub := PrimFloat.sub;
  mul := PrimFloat.mul;
  div := PrimFloat.div;
  Math_max := float_max;
  Math_min := float_min;
|}.

End JsNumber.

(* ================================================================== *)
(** ** src/components/WeightKnob.ts *)
(* ================================================================== *)

Module WeightKnob.
Import JsNumber.

Section Component.
Context {num : Type} {N : Number num}.

(** Maps prompt weight to halo size. *)
Definition MIN_HALO_SCALE : num := of_int 1.
Definition MAX_HALO_SCALE : num := of_int 2.

(** The amount of scale to add to the halo based on audio level. *)
Definition HALO_LEVEL_MODIFIER : num := of_int 1.

(** The fields of the element.  [dragging] stands for the two window
    listeners ([pointermove], [pointerup]) and the body class
    ['dragging'], which the code adds and removes together. *)
Record knob := Knob {
  value : num;
  color : string;
  audioLevel : num;
  dragStartPos : num;
  dragStartValue : num;
  dragging : bool;
}.

(** [new CustomEvent<number>('input', { detail })]. *)
Inductive event := InputEvent (detail : num).

Definition set_value (v : num) (k : knob) : knob :=
  Knob v (color k) (audioLevel k) (dragStartPos k) (dragStartValue k) (dragging k).

Definition handlePointerDown (clientY : num) (k : knob) : knob * list event :=
  (Knob (value k) (color k) (audioLevel k) clientY (value k) true, []).

Definition handlePointerMove (clientY : num) (k : knob) : knob * list event :=
  let delta := sub (dragStartPos k) clientY in
  let k1 := set_value (add (dragStartValue k) (mul delta lit_0_01)) k in
  let k2 := set_value (Math_max (of_int 0) (Math_min (of_int 2) (value k1))) k1 in
  (k2, [InputEvent (value k2)]).

Definition handlePointerUp (k : knob) : knob * list event :=
  (Knob (value k) (color k) (audioLevel k) (dragStartPos k) (dragStartValue k) false, []).

Definition handleWheel (deltaY : num) (k : knob) : knob * list event :=
  let delta := deltaY in
  let k1 := set_value (add (value k) (mul delta lit_neg_0_0025)) k in
  let k2 := set_value (Math_max (of_int 0) (Math_min (of_int 2) (value k1))) k1 in
  (k2, [InputEvent (value k2)]).

(** The [audioLevel] property is assigned by the host element; the
    assignment re-renders and dispatches nothing. *)
Definition set_audioLevel (level : num) (k : knob) : knob * list event :=
  (Knob (value k) (color k) level (dragStartPos k) (dragStartValue k) (dragging k), []).

(** The local [scale] of [render], which becomes the halo's
    [transform: scale(...)]. *)
Definition render_scale (k : knob) : num :=
  let scale := mul (div (value k) (of_int 2)) (sub MAX_HALO_SCALE MIN_HALO_SCALE) in
  let scale := add scale MIN_HALO_SCALE in
  let scale := add scale (mul (audioLevel k) HALO_LEVEL_MODIFIER) in
  scale.

(** What reaches the element.  [pointerdown] and [wheel] are bound on
    the svg by [render]; [pointermove] and [pointerup] are window
    listeners that exist only between a pointer-down and the next
    pointer-up. *)
Inductive input :=
| PointerDown (clientY : num)
| PointerMove (clientY : num)
| PointerUp
| Wheel (deltaY : num)
| AudioLevel (level : num).

Definition deliver (i : input) (k : knob) : knob * list event :=
  match i with
  | PointerDown y => handlePointerDown y k
  | PointerMove y => if dragging k then handlePointerMove y k else (k, [])
  | PointerUp => if dragging k then handlePointerUp k else (k, [])
  | Wheel d => handleWheel d k
  | AudioLevel l => set_audioLevel l k
  end.

(** Inputs that neither begin nor end a drag. *)
Definition within_drag (i : input) : bool :=
  match i with
  | PointerDown _ | PointerUp => false
  | PointerMove _ | Wheel _ | AudioLevel _ => true
  end.

Fixpoint run (inputs : list input) (k : knob) : knob * list event :=
  match inputs with
  | [] => (k, [])
  | i :: rest =>
      let '(k1, out1) := deliver i k in
      let '(k2, out2) := run rest k1 in
      (k2, out1 ++ out2)
  end.

End Component.

Arguments knob : clear implicits.
Arguments event : clear implicits.
Arguments input : clear implicits.

End WeightKnob.

(* ================================================================== *)
(** ** ValueMapper, as the specification writes it *)
(* ================================================================== *)

Module ValueMapper.
Import JsNumber.

#[local] Open Scope Qc_scope.

(** The specification's [clamp(x, lo, hi)]. *)
Definition clamp (x lo hi : Qc) : Qc :=
  if Qcleb x lo then lo else if Qcleb hi x then hi else x.

(** ValueMapper, from a drag. *)
Definition fromDrag (startValue startPointerCoord currentPointerCoord : Qc) : Qc :=
  clamp (startValue + (startPointerCoord - currentPointerCoord) * lit_0_01)
        (of_int 0) (of_int 2).

(** ValueMapper, from a wheel delta, as section 4.1 writes it. *)
Definition fromWheel (previousValue wheelDelta : Qc) : Qc :=
  clamp (previousValue - wheelDelta * Q2Qc (25 # 10000)) (of_int 0) (of_int 2).

End ValueMapper.

(* ================================================================== *)
(** ** Host objects used by PromptDjMidi.ts *)
(* ================================================================== *)

(** Strings.  A JavaScript string is held as its UTF-8 encoding, one
    [ascii] per byte; the strings of the program are well formed, so two
    of them are equal exactly when their encodings are.

    [String.prototype.trim] and [parseInt] strip the code points of
    WhiteSpace and LineTerminator: TAB, LF, VT, FF, CR, SP, U+00A0,
    U+1680, U+2000 to U+200A, U+2028, U+2029, U+202F, U+205F, U+3000 and
    U+FEFF. *)
Module JsString.

(** TAB, LF, VT, FF, CR, SP. *)
Definition one_byte (c1 : ascii) : bool :=
  let b1 := N_of_ascii c1 in
  (((9 <=? b1) && (b1 <=? 13)) || (b1 =? 32))%N.

(** U+00A0 is C2 A0. *)
Definition two_bytes (c1 c2 : ascii) : bool :=
  ((N_of_ascii c1 =? 194) && (N_of_ascii c2 =? 160))%N.

(** U+1680 is E1 9A 80; U+2000 to U+200A are E2 80 80 to E2 80 8A;
    U+2028, U+2029 and U+202F are E2 80 A8, E2 80 A9 and E2 80 AF;
    U+205F is E2 81 9F; U+3000 is E3 80 80; U+FEFF is EF BB BF. *)
Definition three_bytes (c1 c2 c3 : ascii) : bool :=
  let b1 := N_of_ascii c1 in
  let b2 := N_of_ascii c2 in
  let b3 := N_of_ascii c3 in
  (((b1 =? 225) && (b2 =? 154) && (b3 =? 128))
   || ((b1 =? 226) && (b2 =? 128)
       && (((128 <=? b3) && (b3 <=? 138)) || (b3 =? 168) || (b3 =? 169) || (b3 =? 175)))
   || ((b1 =? 226) && (b2 =? 129) && (b3 =? 159))
   || ((b1 =? 227) && (b2 =? 128) && (b3 =? 128))
   || ((b1 =? 239) && (b2 =? 187) && (b3 =? 191)))%N.

(** What follows the white-space character that [s] begins with, if it
    begins with one. *)
Definition white_space (s : string) : option string :=
  match s with
  | EmptyString => None
  | String c1 r1 =>
      if one_byte c1 then Some r1
      else match r1 with
           | EmptyString => None
           | String c2 r2 =>
               if two_bytes c1 c2 then Some r2
               else match r2 with
                    | EmptyString => None
                    | String c3 r3 => if three_bytes c1 c2 c3 then Some r3 else None
                    end
           end
  end.

Fixpoint trimStart (s : string) : string :=
  match s with
  | EmptyString => EmptyString
  | String c1 r1 =>
      if one_byte c1 then trimStart r1
      else match r1 with
           | EmptyString => s
           | String c2 r2 =>
               if two_bytes c1 c2 then trimStart r2
               else match r2 with
                    | EmptyString => s
                    | String c3 r3 => if three_bytes c1 c2 c3 then trimStart r3 else s
                    end
           end
  end.

(** Empty, or white space only. *)
Definition blank (s : string) : bool :=
  match trimStart s with EmptyString => true | String _ _ => false end.

(** The characters of [s] up to the blank rest of it. *)
Fixpoint trimEnd (s : string) : string :=
  match s with
  | EmptyString => EmptyString
  | String c rest => if blank s then EmptyString else String c (trimEnd rest)
  end.

Definition trim (s : string) : string := trimEnd (trimStart s).

(** A string in a condition: only the empty string is falsy. *)
Definition truthy (s : string) : bool :=
  match s with EmptyString => false | String _ _ => true end.

End JsString.

(** A plain object used as a dictionary, [Record<string, string>]: its own
    enumerable properties in the order in which [Object.keys], the spread
    [{...o}] and [JSON.stringify] visit them, which is array-index names in
    ascending numeric order followed by the other names in insertion
    order.  Its prototype is [Object.prototype], whose properties it
    inherits: functions, and the accessor [__proto__]. *)
Module JsObject.

Abbreviation object := (list (string * string)) (only parsing).

Definition digit (c : ascii) : option N :=
  let n := N_of_ascii c in
  if ((48 <=? n) && (n <=? 57))%N then Some (n - 48)%N else None.

Fixpoint digits (s : string) (acc : N) : option N :=
  match s with
  | EmptyString => Some acc
  | String c rest =>
      match digit c with
      | Some d => digits rest (10 * acc + d)%N
      | None => None
      end
  end.

(** A canonical numeric string below 2^32 - 1. *)
Definition array_index (s : string) : option N :=
  match s with
  | EmptyString => None
  | String c rest =>
      if (Ascii.eqb c "0" && JsString.truthy rest)%bool then None
      else match digits s 0 with
           | Some n => if (n <? 4294967295)%N then Some n else None
           | None => None
           end
  end.

(** The names of the properties of [Object.prototype]. *)
Definition Object_prototype : list string :=
  ["constructor"; "__defineGetter__"; "__defineSetter__"; "hasOwnProperty";
   "__lookupGetter__"; "__lookupSetter__"; "isPrototypeOf"; "propertyIsEnumerable";
   "toString"; "valueOf"; "__proto__"; "toLocaleString"].

Definition inherited (k : string) : bool := existsb (String.eqb k) Object_prototype.

(** The own property [k] of [o]: [None] when [o] has no own property
    [k]. *)
Fixpoint get (o : object) (k : string) : option string :=
  match o with
  | [] => None
  | (k', v) :: rest => if String.eqb k' k then Some v else get rest k
  end.

Fixpoint update (k v : string) (o : object) : object :=
  match o with
  | [] => []
  | (k', v') :: rest =>
      if String.eqb k' k then (k', v) :: rest else (k', v') :: update k v rest
  end.

Fixpoint insert_index (n : N) (k v : string) (o : object) : object :=
  match o with
  | [] => [(k, v)]
  | (k', v') :: rest =>
      match array_index k' with
      | Some n' => if (n' <? n)%N then (k', v') :: insert_index n k v rest
                   else (k, v) :: o
      | None => (k, v) :: o
      end
  end.

(** [o[k] = v], for a string [v].  An own property is overwritten.
    Otherwise the assignment goes through the prototype: [__proto__] is
    an accessor there, whose setter ignores a value that is neither an
    object nor [null], so nothing is stored; every other name becomes a
    new own property. *)
Definition set (k v : string) (o : object) : object :=
  match get o k with
  | Some _ => update k v o
  | None =>
      if String.eqb k "__proto__" then o
      else match array_index k with
           | Some n => insert_index n k v o
           | None => o ++ [(k, v)]
           end
  end.

(** An assignment to [o[k]] stores an own property. *)
Definition assignable (o : object) (k : string) : Prop :=
  k <> "__proto__" \/ is_Some (get o k).

(** [delete o[k]]. *)
Definition delete (k : string) (o : object) : object :=
  List.filter (fun p => negb (String.eqb (fst p) k)) o.

(** [Object.keys(o)]. *)
Definition keys (o : object) : list string := map fst o.

(** [o[k]] in a condition: an own property is a string; an inherited
    one is a function or, for [__proto__], the prototype object, all of
    them truthy; otherwise [o[k]] is [undefined]. *)
Definition truthy_at (o : object) (k : string) : bool :=
  match get o k with
  | Some v => JsString.truthy v
  | None => inherited k
  end.

End JsObject.

(** [Map<string, V>]: entries in insertion order, one per key. *)
Module JsMap.

Abbreviation entries V := (list (string * V)) (only parsing).

Section Entries.
Context {V : Type}.

Fixpoint get (m : entries V) (k : string) : option V :=
  match m with
  | [] => None
  | (k', v) :: rest => if String.eqb k' k then Some v else get rest k
  end.

(** [m.set(k, v)]: an existing key keeps its place. *)
Fixpoint set (k : string) (v : V) (m : entries V) : entries V :=
  match m with
  | [] => [(k, v)]
  | (k', v') :: rest =>
      if String.eqb k' k then (k', v) :: rest else (k', v') :: set k v rest
  end.

(** [new Map(iterable)]: the pairs are [set] one after the other. *)
Definition of_entries (es : list (string * V)) : entries V :=
  fold_left (fun m e => set (fst e) (snd e) m) es [].

End Entries.

End JsMap.

(* ================================================================== *)
(** ** src/components/PromptDjMidi.ts *)
(* ================================================================== *)

Module PromptDjMidi.

(** References to [Map] objects and to [Prompt] objects. *)
Abbreviation loc := nat (only parsing).

Section Component.
Context {num : Type}.

(** [Prompt], from its uses in this file ([../types] declares it). *)
Record Prompt := mkPrompt {
  promptId : string;
  text : string;
  weight : num;
  cc : num;
  color : string;
}.

(** [JSON.parse] and [JSON.stringify] at the two types at which the
    component calls them.  [None] is a thrown [SyntaxError].  Parsed
    values that do not have the annotated type ([[string, Prompt][]],
    [Record<string, string>]) are outside the model. *)
Record JSON := {
  stringify_entries : list (string * Prompt) -> string;
  parse_entries : string -> option (list (string * Prompt));
  stringify_presets : JsObject.object -> string;
  parse_presets : string -> option JsObject.object;
}.

(** The element's fields that the preset and edit handlers touch,
    together with the objects they reach: the store of [Map] and
    [Prompt] objects, [localStorage], the console and the number of
    [requestUpdate] calls. *)
Record state := State {
  maps : gmap loc (JsMap.entries loc);
  objs : gmap loc Prompt;
  prompts : loc;
  presets : JsObject.object;
  selectedPresetName : string;
  localStorage : gmap string string;
  console : list string;
  updateRequests : nat;
}.

Inductive event :=
| PromptsChanged (detail : loc)      (* 'prompts-changed', detail: a Map *)
| ErrorEvent (detail : string).      (* 'error', detail: a message *)

Definition set_store (ms : gmap loc (JsMap.entries loc)) (os : gmap loc Prompt)
    (st : state) : state :=
  State ms os (prompts st) (presets st) (selectedPresetName st)
        (localStorage st) (console st) (updateRequests st).

Definition set_prompts (m : loc) (st : state) : state :=
  State (maps st) (objs st) m (presets st) (selectedPresetName st)
        (localStorage st) (console st) (updateRequests st).

Definition set_presets (o : JsObject.object) (st : state) : state :=
  State (maps st) (objs st) (prompts st) o (selectedPresetName st)
        (localStorage st) (console st) (updateRequests st).

Definition set_selectedPresetName (n : string) (st : state) : state :=
  State (maps st) (objs st) (prompts st) (presets st) n
        (localStorage st) (console st) (updateRequests st).

Definition set_localStorage (ls : gmap string string) (st : state) : state :=
  State (maps st) (objs st) (prompts st) (presets st) (selectedPresetName st)
        ls (console st) (updateRequests st).

Definition console_error (msg : string) (st : state) : state :=
  State (maps st) (objs st) (prompts st) (presets st) (selectedPresetName st)
        (localStorage st) (console st ++ [msg]) (updateRequests st).

Definition requestUpdate (st : state) : state :=
  State (maps st) (objs st) (prompts st) (presets st) (selectedPresetName st)
        (localStorage st) (console st) (S (updateRequests st)).

(** The entries of the [Map] object at [m]. *)
Definition entries_at (st : state) (m : loc) : JsMap.entries loc :=
  default [] (maps st !! m).

(** [new Map(...)]: a fresh [Map] object holding [es]. *)
Definition new_Map (es : JsMap.entries loc) (st : state) : loc * state :=
  let m := fresh (dom (maps st)) in
  (m, set_store (<[m := es]> (maps st)) (objs st) st).

(** [Array.from(map.entries())], each record read from the store. *)
Definition read_entries (os : gmap loc Prompt) (es : JsMap.entries loc)
    : list (string * Prompt) :=
  omap (fun e => pair (fst e) <$> os !! snd e) es.

(** What a consumer holding the [Map] reference [m] sees through it. *)
Definition view (st : state) (m : loc) : list (string * Prompt) :=
  read_entries (objs st) (entries_at st m).

Definition storage_key : string := "prompt-dj-presets".

(** [prompt.text = text; prompt.weight = weight; prompt.cc = cc]. *)
Definition assign (text : string) (weight cc : num) (prompt : Prompt) : Prompt :=
  mkPrompt (promptId prompt) text weight cc (color prompt).

Definition handlePromptChanged (detail : Prompt) (st : state) : state * list event :=
  let promptId := promptId detail in
  let text := text detail in
  let weight := weight detail in
  let cc := cc detail in
  match JsMap.get (entries_at st (prompts st)) promptId with
  | None => (console_error "prompt not found" st, [])
  | Some prompt =>
      let st := set_store (maps st) (alter (assign text weight cc) prompt (objs st)) st in
      let '(newPrompts, st) := new_Map (entries_at st (prompts st)) st in
      let st := set_store
                  (<[newPrompts := JsMap.set promptId prompt (entries_at st newPrompts)]> (maps st))
                  (objs st) st in
      let st := set_prompts newPrompts st in
      let st := requestUpdate st in
      (st, [PromptsChanged (prompts st)])
  end.

Section WithJSON.
Variable json : JSON.

(** The empty text is not JSON: [JSON.parse] throws on it. *)
Definition rejects_empty_text : Prop :=
  parse_entries json EmptyString = None /\ parse_presets json EmptyString = None.

Definition loadPresetsFromStorage (st : state) : state :=
  match localStorage st !! storage_key with
  | None => st
  | Some storedPresets =>
      if JsString.truthy storedPresets then
        match parse_presets json storedPresets with
        | Some parsed =>
            let st := set_presets parsed st in
            let presetNames := JsObject.keys (presets st) in
            match presetNames with
            | first :: _ => set_selectedPresetName first st
            | [] => st
            end
        | None =>
            let st := console_error "Failed to parse presets from localStorage" st in
            set_localStorage (delete storage_key (localStorage st)) st
        end
      else st
  end.

(** The constructor, given the store in which [initialPrompts] lives
    and the contents of [localStorage]. *)
Definition constructor (ms : gmap loc (JsMap.entries loc)) (os : gmap loc Prompt)
    (initialPrompts : loc) (ls : gmap string string) : state :=
  loadPresetsFromStorage (State ms os initialPrompts [] EmptyString ls [] 0).

(** [answer] is what the [prompt] dialog returns: [None] is [null]. *)
Definition handleSavePreset (answer : option string) (st : state) : state :=
  match answer with
  | None => st
  | Some name =>
      if (JsString.truthy name && JsString.truthy (JsString.trim name))%bool then
        let trimmedName := JsString.trim name in
        let promptsToSave := view st (prompts st) in
        let st := set_presets
                    (JsObject.set trimmedName (stringify_entries json promptsToSave)
                                  (presets st)) st in
        let st := set_selectedPresetName trimmedName st in
        set_localStorage
          (<[storage_key := stringify_presets json (presets st)]> (localStorage st)) st
      else st
  end.

(** The objects that [JSON.parse] creates for the records of a
    parsed array. *)
Fixpoint alloc_entries (es : list (string * Prompt)) (os : gmap loc Prompt)
    : JsMap.entries loc * gmap loc Prompt :=
  match es with
  | [] => ([], os)
  | (k, p) :: rest =>
      let l := fresh (dom os) in
      let '(ls, os') := alloc_entries rest (<[l := p]> os) in
      ((k, l) :: ls, os')
  end.

Definition handleLoadPreset (st : state) : state * list event :=
  if (negb (JsString.truthy (selectedPresetName st))
      || negb (JsObject.truthy_at (presets st) (selectedPresetName st)))%bool
  then (st, [])
  else
    (* [None] is an inherited property: [JSON.parse] converts it to a
       text that begins with "function" or is "[object Object]", and
       throws. *)
    let presetString := JsObject.get (presets st) (selectedPresetName st) in
    match presetString ≫= parse_entries json with
    | Some parsed =>
        let '(loadedPromptsArray, os) := alloc_entries parsed (objs st) in
        let st := set_store (maps st) os st in
        let '(m, st) := new_Map (JsMap.of_entries loadedPromptsArray) st in
        let st := set_prompts m st in
        let st := requestUpdate st in
        let '(copy, st) := new_Map (entries_at st (prompts st)) st in
        (st, [PromptsChanged copy])
    | None =>
        let st := console_error "Failed to load preset" st in
        (st, [ErrorEvent "Failed to load preset. It might be corrupted."])
    end.

(** [confirmed] is what the [confirm] dialog returns. *)
Definition handleDeletePreset (confirmed : bool) (st : state) : state :=
  if (negb (JsString.truthy (selectedPresetName st))
      || negb (JsObject.truthy_at (presets st) (selectedPresetName st)))%bool
  then st
  else if confirmed then
    let st := set_presets (JsObject.delete (selectedPresetName st) (presets st)) st in
    let presetNames := JsObject.keys (presets st) in
    let st := set_selectedPresetName
                (match presetNames with first :: _ => first | [] => EmptyString end) st in
    set_localStorage
      (<[storage_key := stringify_presets json (presets st)]> (localStorage st)) st
  else st.

End WithJSON.

End Component.

Arguments Prompt : clear implicits.
Arguments JSON : clear implicits.
Arguments state : clear implicits.

End PromptDjMidi.

(* ================================================================== *)
(** ** Concrete hosts, stores and knobs *)
(* ================================================================== *)

(** [JSON.stringify] as the engine prints the two payloads, for prompts
    whose numbers are integers, and a [JSON.parse] that reads back the
    texts of a given list of collections and preset objects and rejects
    every other text; a store with two prompts; knobs at rest. *)
Module Scenario.
Import JsNumber WeightKnob PromptDjMidi.

#[local] Open Scope string_scope.

Definition dq : string := String "034" EmptyString.

Fixpoint escape (s : string) : string :=
  match s with
  | EmptyString => EmptyString
  | String c rest =>
      if (Ascii.eqb c "034" || Ascii.eqb c "\")%bool
      then String "\" (String c (escape rest))
      else String c (escape rest)
  end.

Definition quote (s : string) : string := dq ++ escape s ++ dq.

Definition number (z : Z) : string := NilZero.string_of_int (Z.to_int z).

Definition member (k v : string) : string := quote k ++ ":" ++ v.

Definition prompt_text (p : Prompt Z) : string :=
  "{" ++ String.concat ","
           [member "promptId" (quote (promptId p));
            member "text" (quote (text p));
            member "weight" (number (weight p));
            member "cc" (number (cc p));
            member "color" (quote (color p))] ++ "}".

Definition entries_text (es : list (string * Prompt Z)) : string :=
  "[" ++ String.concat ","
           (map (fun e => "[" ++ quote (fst e) ++ "," ++ prompt_text (snd e) ++ "]") es)
      ++ "]".

Definition presets_text (o : JsObject.object) : string :=
  "{" ++ String.concat "," (map (fun e => member (fst e) (quote (snd e))) o) ++ "}".

Definition read {A : Type} (print : A -> string) (known : list A) (s : string) : option A :=
  List.find (fun a => String.eqb (print a) s) known.

Definition json (collections : list (list (string * Prompt Z)))
    (objects : list JsObject.object) : JSON Z := {|
  stringify_entries := entries_text;
  parse_entries := read entries_text collections;
  stringify_presets := presets_text;
  parse_presets := read presets_text objects;
|}.

Definition bossa : Prompt Z := mkPrompt "A" "Bossa Nova" 0%Z 0%Z "#9900ff".
Definition chillwave : Prompt Z := mkPrompt "B" "Chillwave" 1%Z 1%Z "#5200ff".

(** A store with one [Map] object, at 0, over two [Prompt] objects. *)
Definition two_prompts : state Z :=
  State {[ 0%nat := [("A", 0%nat); ("B", 1%nat)] ]}
        {[ 0%nat := bossa; 1%nat := chillwave ]}
        0%nat [] EmptyString ∅ [] 0.

Definition two_presets : JsObject.object := [("first", "[]"); ("second", "[]")].

Definition host : JSON Z :=
  json [ [("A", bossa); ("B", chillwave)] ] [ two_presets ].

(** [two_prompts] with the given presets, the first of them selected. *)
Definition with_presets (o : JsObject.object) : state Z :=
  set_selectedPresetName (hd EmptyString (JsObject.keys o)) (set_presets o two_prompts).

(** A no-break space, U+00A0. *)
Definition nbsp : string := String "194" (String "160" EmptyString).

(** A stored text that is cut off, and so is not JSON. *)
Definition cut_off : string := "[[" ++ dq ++ "A" ++ dq ++ ",{".

(** Knobs at rest, at 0 and at 0.3. *)
Definition knob_0 : knob Qc :=
  Knob (of_int 0) "#000" (of_int 0) (of_int 0) (of_int 0) false.

Definition knob_0_binary64 : knob float :=
  Knob 0%float "#000" 0%float 0%float 0%float false.

Definition knob_3_10 : knob Qc :=
  Knob (Q2Qc (3 # 10)) "#000" (of_int 0) (of_int 0) (of_int 0) false.

Definition knob_3_10_binary64 : knob float :=
  Knob 0.3%float "#000" 0%float 0%float 0%float false.

End Scenario.

(* ================================================================== *)
(** ** WeightKnob.ts: what [render] derives from the value *)
(* ================================================================== *)

Module WeightKnobRender.
Import JsNumber WeightKnob.

(** The further literals of [render] and [renderIndicator], and [>]. *)
Class RenderNumber (num : Type) := {
  lit_0_5 : num;
  lit_1_8 : num;
  lit_0_4 : num;
  lit_1_4 : num;
  lit_0_6 : num;
  gt : num -> num -> bool;
}.

Definition binary64_RenderNumber : RenderNumber float := {|
  lit_0_5 := 0.5%float;
  lit_1_8 := 1.8%float;
  lit_0_4 := 0.4%float;
  lit_1_4 := 1.4%float;
  lit_0_6 := 0.6%float;
  gt a b := (b <? a)%float;
|}.

Section Render.
Context {num : Type} {N : Number num} {R : RenderNumber num}.

(** [display: this.value > 0 ? 'block' : 'none'] of the halo. *)
Definition halo_display (k : knob num) : string :=
  if gt (value k) (of_int 0) then "block" else "none".

(** Smoothly transition between textures based on value. *)
Definition groovedOpacity (k : knob num) : num :=
  Math_max (of_int 0)
    (Math_min (Math_min (of_int 1) (div (sub (value k) lit_0_5) lit_0_5))
              (div (sub lit_1_8 (value k)) lit_0_4)).

Definition akiraOpacity (k : knob num) : num :=
  Math_max (of_int 0) (div (sub (value k) lit_1_4) lit_0_6).

(** [renderIndicator]: the colored arc is drawn when [this.value > 0.01]. *)
Definition indicatorArc_drawn (k : knob num) : bool :=
  gt (value k) lit_0_01.

End Render.

End WeightKnobRender.

(* ================================================================== *)
(** ** WeightKnob.ts: what a listener of the knob observes *)
(* ================================================================== *)

Module WeightKnobObserved.
Import JsNumber WeightKnob.

#[local] Open Scope Qc_scope.

(** A dispatched value that lies in [0, 2]. *)
Definition in_range (e : event Qc) : Prop :=
  match e with InputEvent v => of_int 0 <= v <= of_int 2 end.

(** A dispatched binary64 value that is NaN or lies in [0, 2]. *)
Definition nan_or_in_range (e : event float) : Prop :=
  match e with
  | InputEvent v => is_nan v = true \/ ((0 <=? v)%float = true /\ (v <=? 2)%float = true)
  end.

(** A binary64 number that is NaN or lies in [lo, hi]. *)
Definition nan_or_between (lo hi x : float) : Prop :=
  is_nan x = true \/ ((lo <=? x)%float = true /\ (x <=? hi)%float = true).

Section AnyNumber.
Context {num : Type}.

(** The value of a knob after [inputs], given what was dispatched. *)
Definition mirrored (out : list (event num)) (before after : num) : Prop :=
  match last out with
  | Some (InputEvent v) => after = v
  | None => after = before
  end.

End AnyNumber.

(** Inputs that are delivered through the window listeners only. *)
Definition window_input {num : Type} (i : input num) : bool :=
  match i with
  | PointerMove _ | PointerUp => true
  | PointerDown _ | Wheel _ | AudioLevel _ => false
  end.

End WeightKnobObserved.

(* ================================================================== *)
(** ** PromptDjMidi.ts: the preset picker and a session of user actions *)
(* ================================================================== *)

Module PromptDjMidiSession.
Import PromptDjMidi.

Section Session.
Context {num : Type}.
Variable json : JSON num.

Definition handlePresetSelectionChange (value : string) (st : state num) : state num :=
  set_selectedPresetName value st.

(** What the user does to the grid and to the presets group.  The select
    element offers [Object.keys(this.presets)]; [Select i] picks its
    option number [i]. *)
Inductive action :=
| Edit (detail : Prompt num)
| Save (answer : option string)
| Load
| Delete (confirmed : bool)
| Select (i : nat).

Definition perform (a : action) (st : state num) : state num * list event :=
  match a with
  | Edit detail => handlePromptChanged detail st
  | Save answer => (handleSavePreset json answer st, [])
  | Load => handleLoadPreset json st
  | Delete confirmed => (handleDeletePreset json confirmed st, [])
  | Select i =>
      match JsObject.keys (presets st) !! i with
      | Some name => (handlePresetSelectionChange name st, [])
      | None => (st, [])
      end
  end.

Fixpoint session (actions : list action) (st : state num) : state num * list event :=
  match actions with
  | [] => (st, [])
  | a :: rest =>
      let '(st1, out1) := perform a st in
      let '(st2, out2) := session rest st1 in
      (st2, out1 ++ out2)
  end.

(** The selection is empty, names a stored preset, or is [__proto__]. *)
Definition selection_valid (st : state num) : Prop :=
  selectedPresetName st = EmptyString \/
  is_Some (JsObject.get (presets st) (selectedPresetName st)) \/
  selectedPresetName st = "__proto__".

(** [localStorage] holds the serialized presets. *)
Definition persisted (st : state num) : Prop :=
  localStorage st !! storage_key = Some (stringify_presets json (presets st)).

(** What an edit does to the entries that a consumer reads. *)
Definition edited (detail : Prompt num) (e : string * Prompt num) : string * Prompt num :=
  if String.eqb (fst e) (promptId detail)
  then (fst e, assign (text detail) (weight detail) (cc detail) (snd e))
  else e.

End Session.

Arguments action : clear implicits.

End PromptDjMidiSession.

(* ================================================================== *)
(** ** PromptDjMidi.ts: what [render] derives from the state *)
(* ================================================================== *)

Module PromptDjMidiView.
Import PromptDjMidi.

Section Grid.
Context {num : Type}.

(** The reactive fields that [renderPrompts] reads besides the
    collection.  Of the [Set] of filtered prompts only [has] is used. *)
Record element := Element {
  core : state num;
  showMidi : bool;
  audioLevel : num;
  filteredPrompts : gset string;
}.

(** [this.filteredPrompts = new Set([...this.filteredPrompts, prompt])]. *)
Definition addFilteredPrompt (prompt : string) (el : element) : element :=
  Element (core el) (showMidi el) (audioLevel el) (filteredPrompts el ∪ {[ prompt ]}).

(** The attributes and properties of one [<prompt-controller>]. *)
Record controller := Controller {
  c_promptId : string;
  c_filtered : bool;
  c_cc : num;
  c_text : string;
  c_weight : num;
  c_color : string;
  c_showCC : bool;
  c_audioLevel : num;
}.

Definition renderPrompts (el : element) : list controller :=
  map (fun e =>
         let prompt := snd e in
         Controller (promptId prompt)
                    (bool_decide (text prompt ∈ filteredPrompts el))
                    (cc prompt) (text prompt) (weight prompt) (color prompt)
                    (showMidi el) (audioLevel el))
      (view (core el) (prompts (core el))).

(** A controller as it is rendered once [prompt] is filtered. *)
Definition flagged (prompt : string) (c : controller) : controller :=
  if String.eqb (c_text c) prompt
  then Controller (c_promptId c) true (c_cc c) (c_text c) (c_weight c) (c_color c)
                  (c_showCC c) (c_audioLevel c)
  else c.

End Grid.

Arguments element : clear implicits.
Arguments controller : clear implicits.

(** The background.  [makeBackground] is [throttle(f, 30)], where
    [throttle] comes from [../utils/throttle] and [f] is the arrow
    function that builds the array [bg] of gradients from the current
    collection.  What follows is one run of [f], in binary64, up to the
    text of the CSS gradient: the numbers and the color suffix that the
    template interpolates, one gradient per prompt. *)
Section Background.
#[local] Open Scope float_scope.

Definition clamp01 (v : float) : float :=
  JsNumber.float_min (JsNumber.float_max v 0) 1.

Definition MAX_WEIGHT : float := 0.5.
Definition MAX_ALPHA : float := 0.6.

(** What [Math.round] returns: NaN, an infinity or an integer.  The
    zero that it returns for arguments in [-0.5, -0] is negative; it
    prints like 0. *)
Inductive rounded := Rnan | Rinfinity (negative : bool) | Rint (z : Z).

(** [Math.round]: the nearest integer, halves upwards.  A finite
    argument is [n * 2^e]; for negative [e] the result is the floor of
    [(2 * n + 2^(-e)) / 2^(1 - e)]. *)
Definition Math_round (x : float) : rounded :=
  match Prim2SF x with
  | S754_nan => Rnan
  | S754_infinity s => Rinfinity s
  | S754_zero _ => Rint 0
  | S754_finite s m e =>
      let n := if s then Z.neg m else Z.pos m in
      if (0 <=? e)%Z then Rint (n * 2 ^ e)
      else Rint ((2 * n + 2 ^ (- e)) / 2 ^ (1 - e))
  end.

(** [toString(16)] of what [Math.round] returns. *)
Definition toString16 (r : rounded) : string :=
  match r with
  | Rnan => "NaN"
  | Rinfinity s => if s then "-Infinity" else "Infinity"
  | Rint z =>
      let digits := HexadecimalString.NilZero.string_of_uint (N.to_hex_uint (Z.abs_N z)) in
      if (z <? 0)%Z then String "-" digits else digits
  end.

(** [s.padStart(2, '0')]. *)
Definition padStart2 (s : string) : string :=
  match s with
  | EmptyString => "00"
  | String c EmptyString => String "0" (String c EmptyString)
  | _ => s
  end.

Definition alpha (weight : float) : string :=
  let alphaPct := clamp01 (weight / MAX_WEIGHT) * MAX_ALPHA in
  padStart2 (toString16 (Math_round (alphaPct * 255))).

Record gradient := Gradient {
  at_x : float;           (* circle at ${x * 100}% ... *)
  at_y : float;           (* ... ${y * 100}% *)
  inner : string;         (* ${p.color}${alpha} 0px *)
  outer : string;         (* ${p.color}00 ... *)
  stop_at : float;        (* ... ${stop * 100}% *)
}.

(** The gradient of the prompt at index [i]; [i % 4] and
    [Math.floor(i / 4)] are taken on the index as an integer. *)
Definition gradient_of (i : nat) (p : Prompt float) : gradient :=
  let stop := weight p / 2 in
  let x := JsNumber.float_of_Z (Z.of_nat (i mod 4)) / 3 in
  let y := JsNumber.float_of_Z (Z.of_nat (i / 4)) / 3 in
  Gradient (x * 100) (y * 100)
           (color p ++ alpha (weight p))%string (color p ++ "00")%string
           (stop * 100).

Definition bg (st : state float) : list gradient :=
  imap (fun i e => gradient_of i (snd e)) (view st (prompts st)).

End Background.

End PromptDjMidiView.

(* ================================================================== *)
(** ** PromptDjMidi.ts: the tempo slider *)
(* ================================================================== *)

Module PromptDjMidiBpm.

Definition starts_with_digit (s : string) : bool :=
  match s with
  | EmptyString => false
  | String c _ => match JsObject.digit c with Some _ => true | None => false end
  end.

(** The value of the longest prefix of decimal digits of [s], continuing
    [acc]; [None] while no digit has been read. *)
Fixpoint leading_digits (s : string) (acc : option N) : option N :=
  match s with
  | EmptyString => acc
  | String c rest =>
      match JsObject.digit c with
      | Some d => leading_digits rest (Some (10 * default 0%N acc + d)%N)
      | None => acc
      end
  end.

(** The input begins with a minus sign. *)
Definition negative (s : string) : bool :=
  match s with
  | String "-" _ => true
  | _ => false
  end.

Definition unsigned (s : string) : string :=
  match s with
  | String "-" rest => rest
  | String "+" rest => rest
  | _ => s
  end.

(** [parseInt(input, 10)]: leading white space is skipped, one sign is
    read, then the digits up to the first other character; without a
    digit the result is NaN.  The result is the binary64 number nearest
    to the integer that was read, and -0 for a negative zero.  (Beyond
    twenty significant digits an engine may read the further digits as
    zeros; here they are read as they are.) *)
Definition parseInt (input : string) : float :=
  let S := JsString.trimStart input in
  match leading_digits (unsigned S) None with
  | None => nan
  | Some mathInt =>
      if negative S then
        if (mathInt =? 0)%N then (-0)%float else JsNumber.float_of_Z (- Z.of_N mathInt)
      else JsNumber.float_of_Z (Z.of_N mathInt)
  end.

Inductive event := BpmChanged (detail : float).    (* 'bpm-changed' *)

(** [bpm] is the field [this.bpm]. *)
Definition handleBpmChange (value : string) (bpm : float) : float * list event :=
  let bpm := parseInt value in
  (bpm, [BpmChanged bpm]).

(** The decimal numeral of [n]. *)
Definition decimal (n : N) : string := NilZero.string_of_uint (N.to_uint n).

End PromptDjMidiBpm.

(* ================================================================== *)
(** * Properties of the weight knob *)
(* ================================================================== *)

Module WeightKnobSpec.
Import JsNumber WeightKnob ValueMapper Scenario.

#[local] Open Scope Qc_scope.

Lemma Qcleb_true (a b : Qc) : Qcleb a b = true <-> a <= b.
Proof. unfold Qcleb, Qcle. apply Qle_bool_iff. Qed.

Lemma Qcleb_false (a b : Qc) : Qcleb a b = false <-> b < a.
Proof.
  rewrite <- not_true_iff_false, Qcleb_true.
  split; [apply Qcnot_le_lt | apply Qclt_not_le].
Qed.

Ltac order_cases :=
  repeat match goal with
    | |- context [Qcleb ?a ?b] =>
        let E := fresh "E" in
        destruct (Qcleb a b) eqn:E;
        [apply Qcleb_true in E | apply Qcleb_false in E]
    end.

Ltac to_Q :=
  unfold Qcle, Qclt in *; simpl in *;
  repeat match goal with
    | H : context [Qred ?q] |- _ => setoid_rewrite (Qred_correct q) in H
    | |- context [Qred ?q] => setoid_rewrite (Qred_correct q)
    end;
  unfold inject_Z in *.

Lemma code_clamp_is_clamp (x : Qc) :
  Math_max (of_int 0) (Math_min (of_int 2) x) = clamp x (of_int 0) (of_int 2).
Proof.
  unfold clamp; simpl; unfold Qc_max, Qc_min.
  order_cases; try reflexivity; apply Qc_is_canon; to_Q;
    try (exfalso; lra); lra.
Qed.

Lemma clamp_range (x : Qc) :
  of_int 0 <= clamp x (of_int 0) (of_int 2) <= of_int 2.
Proof. unfold clamp; order_cases; to_Q; lra. Qed.

Lemma clamp_mono (x y : Qc) :
  x <= y -> clamp x (of_int 0) (of_int 2) <= clamp y (of_int 0) (of_int 2).
Proof. unfold clamp; intros H; order_cases; to_Q; lra. Qed.

Lemma drag_arg_antitone (v0 p0 p p' : Qc) :
  p <= p' -> v0 + (p0 - p') * lit_0_01 <= v0 + (p0 - p) * lit_0_01.
Proof.
  intros H. apply Qcplus_le_mono_l.
  apply Qcmult_le_mono_nonneg_r; [to_Q; lra |].
  unfold Qcminus. apply Qcplus_le_mono_l. now apply Qcopp_le_compat.
Qed.

Section AnyNumber.
Context {num : Type} {N : Number num}.

(** The inputs inside one drag keep the captured start position, start
    value and the window listeners. *)
Lemma deliver_within_drag (i : input num) (k : knob num) :
  within_drag i = true ->
  dragStartPos (fst (deliver i k)) = dragStartPos k /\
  dragStartValue (fst (deliver i k)) = dragStartValue k /\
  dragging (fst (deliver i k)) = dragging k.
Proof.
  destruct i; simpl; try discriminate; intros _.
  - destruct (dragging k) eqn:D; simpl; auto.
  - auto.
  - auto.
Qed.

Lemma run_within_drag (between : list (input num)) (k : knob num) :
  forallb within_drag between = true ->
  dragStartPos (fst (run between k)) = dragStartPos k /\
  dragStartValue (fst (run between k)) = dragStartValue k /\
  dragging (fst (run between k)) = dragging k.
Proof.
  revert k; induction between as [|i rest IH]; intros k Hw; [easy|].
  simpl in Hw. apply andb_true_iff in Hw as [Hi Hrest].
  pose proof (deliver_within_drag i k Hi) as (Hp & Hv & Hd).
  simpl. destruct (deliver i k) as [k1 out1].
  specialize (IH k1 Hrest). destruct (run rest k1) as [k2 out2]; simpl in *.
  destruct IH as (-> & -> & ->). auto.
Qed.

(** After a pointer-down at [p0] on a knob [k], and whatever moves,
    wheel turns and audio levels follow inside the same drag. *)
Lemma drag_state (k : knob num) (p0 : num) (between : list (input num)) :
  forallb within_drag between = true ->
  let k1 := fst (run (PointerDown p0 :: between) k) in
  dragStartPos k1 = p0 /\ dragStartValue k1 = value k /\ dragging k1 = true.
Proof.
  intros Hw. simpl.
  pose proof (run_within_drag between
                (Knob (value k) (color k) (audioLevel k) p0 (value k) true) Hw) as H.
  destruct (run between _) as [k2 out2]; simpl in *. exact H.
Qed.

(** The next pointer move of that drag, as the handler computes it. *)
Lemma deliver_move_in_drag (k : knob num) (p0 : num) (between : list (input num)) (p : num) :
  forallb within_drag between = true ->
  let k1 := fst (run (PointerDown p0 :: between) k) in
  let v := Math_max (of_int 0)
             (Math_min (of_int 2) (add (value k) (mul (sub p0 p) lit_0_01))) in
  value (fst (deliver (PointerMove p) k1)) = v /\
  snd (deliver (PointerMove p) k1) = [InputEvent v].
Proof.
  intros Hw k1 v. destruct (drag_state k p0 between Hw) as (Hp & Hv & Hd).
  fold k1 in Hp, Hv, Hd. unfold deliver. rewrite Hd.
  unfold handlePointerMove; simpl. rewrite Hp, Hv. auto.
Qed.

End AnyNumber.

(** Facts about binary64 addition and the binary64 clamp. *)
Lemma SFadd_comm (x y : spec_float) : SF64add x y = SF64add y x.
Proof.
  unfold SF64add, SFadd.
  destruct x as [sx|sx| |sx mx ex], y as [sy|sy| |sy my ey]; try reflexivity;
    try (destruct sx, sy; reflexivity).
  rewrite (Z.min_comm ex ey). f_equal. apply Z.add_comm.
Qed.

Lemma float_add_comm (x y : float) : (x + y)%float = (y + x)%float.
Proof. apply Prim2SF_inj. rewrite !add_spec. apply SFadd_comm. Qed.

Lemma SFcompare_swap (a b : spec_float) :
  SFcompare b a = option_map CompOpp (SFcompare a b).
Proof.
  destruct a as [sa|sa| |sa ma ea], b as [sb|sb| |sb mb eb]; simpl;
    try reflexivity; try (destruct sa; reflexivity);
    try (destruct sb; reflexivity); try (destruct sa, sb; reflexivity).
  pose proof (Pos.compare_cont_antisym ma mb Eq) as Hm; simpl in Hm.
  destruct sa, sb; simpl; try reflexivity;
    rewrite (Z.compare_antisym ea eb); destruct (ea ?= eb)%Z; simpl;
    try reflexivity; rewrite <- Hm; try reflexivity.
Qed.

Lemma is_nan_false (a : float) : is_nan a = false -> Prim2SF a <> S754_nan.
Proof.
  unfold is_nan. rewrite FloatAxioms.eqb_spec.
  intros H E. rewrite E in H. discriminate.
Qed.

Lemma ltb_leb (a b : float) : (a <? b)%float = true -> (a <=? b)%float = true.
Proof.
  rewrite ltb_spec, leb_spec. unfold SFltb, SFleb.
  destruct (SFcompare _ _) as [[]|]; easy.
Qed.

Lemma not_ltb_leb (a b : float) :
  is_nan a = false -> is_nan b = false ->
  (a <? b)%float = false -> (b <=? a)%float = true.
Proof.
  intros Ha%is_nan_false Hb%is_nan_false.
  rewrite ltb_spec, leb_spec. unfold SFltb, SFleb.
  rewrite (SFcompare_swap (Prim2SF a) (Prim2SF b)).
  assert (exists c, SFcompare (Prim2SF a) (Prim2SF b) = Some c) as [c ->].
  { destruct (Prim2SF a), (Prim2SF b); try congruence; simpl; eauto. }
  destruct c; easy.
Qed.

(** The clamp of the handlers, on binary64: a value that is not NaN
    lands in [0, 2]. *)
Lemma binary64_clamp_range (x : float) :
  is_nan x = false ->
  (0 <=? float_max 0 (float_min 2 x))%float = true /\
  (float_max 0 (float_min 2 x) <=? 2)%float = true.
Proof.
  intros Hx.
  assert (is_nan (float_min 2 x) = false /\ (float_min 2 x <=? 2)%float = true)
    as [Hm Hm2].
  { unfold float_min. rewrite Hx. change (is_nan 2) with false. simpl.
    destruct (2 <? x)%float eqn:E1; [split; reflexivity|].
    destruct (x <? 2)%float eqn:E2; [split; [exact Hx | now apply ltb_leb]|].
    change (get_sign 2) with false. simpl.
    split; [exact Hx | now apply not_ltb_leb]. }
  unfold float_max. rewrite Hm. change (is_nan 0) with false. simpl.
  destruct (0 <? float_min 2 x)%float eqn:E1; [split; [now apply ltb_leb | exact Hm2]|].
  destruct (float_min 2 x <? 0)%float eqn:E2; [split; reflexivity|].
  change (get_sign 0) with false. simpl. split; reflexivity.
Qed.

(** C6.  After a pointer-down at coordinate [p0] on a knob whose value is
    [v0], every pointer move of that drag, at any coordinate [p] and
    after any moves, wheel turns and audio levels of the same drag, sets
    the value to [clamp(v0 + (p0 - p) * 0.01, 0, 2)] and dispatches it;
    the value lies in [0, 2]; a move to a smaller coordinate (upward)
    gives a value at least as large.  A drag from 100 to 50 starting at
    0.3 yields 0.8.  The formula and the scenario hold in exact
    arithmetic and in binary64; the range holds in exact arithmetic and,
    for a value that is not NaN, in binary64; the monotonicity is proved
    in exact arithmetic. *)
Theorem drag_sets_clamped_value :
  forall (k : knob Qc) (p0 : Qc) (between : list (input Qc))
         (kf : knob float) (p0f : float) (betweenf : list (input float)),
    forallb within_drag between = true ->
    forallb within_drag betweenf = true ->
    let k1 := fst (run (PointerDown p0 :: between) k) in
    let k1f := fst (@run _ binary64_Number (PointerDown p0f :: betweenf) kf) in
    (forall p : Qc,
        value (fst (deliver (PointerMove p) k1)) = fromDrag (value k) p0 p /\
        snd (deliver (PointerMove p) k1) = [InputEvent (fromDrag (value k) p0 p)] /\
        of_int 0 <= fromDrag (value k) p0 p <= of_int 2) /\
    (forall p p' : Qc,
        p <= p' ->
        value (fst (deliver (PointerMove p') k1))
        <= value (fst (deliver (PointerMove p) k1))) /\
    (forall p : float,
        let v := float_max 0 (float_min 2 (value kf + (p0f - p) * 0.01))%float in
        value (fst (@deliver _ binary64_Number (PointerMove p) k1f)) = v /\
        snd (@deliver _ binary64_Number (PointerMove p) k1f) = [InputEvent v] /\
        (is_nan (value kf + (p0f - p) * 0.01)%float = false ->
         (0 <=? v)%float = true /\ (v <=? 2)%float = true)) /\
    value (fst (run [PointerDown (of_int 100); PointerMove (of_int 50)] knob_3_10))
    = Q2Qc (8 # 10) /\
    value (fst (@run _ binary64_Number [PointerDown 100%float; PointerMove 50%float]
                     knob_3_10_binary64))
    = 0.8%float.
Proof.
  intros k p0 between kf p0f betweenf Hw Hwf k1 k1f. subst k1 k1f.
  assert (forall p : Qc,
             value (fst (deliver (PointerMove p) (fst (run (PointerDown p0 :: between) k))))
             = fromDrag (value k) p0 p /\
             snd (deliver (PointerMove p) (fst (run (PointerDown p0 :: between) k)))
             = [InputEvent (fromDrag (value k) p0 p)]) as Hmove.
  { intros p. destruct (deliver_move_in_drag k p0 between p Hw) as [E1 E2].
    rewrite E1, E2. unfold fromDrag. now rewrite code_clamp_is_clamp. }
  split; [|split; [|split; [|split]]].
  - intros p. destruct (Hmove p) as [E1 E2].
    split; [exact E1|]. split; [exact E2|]. apply clamp_range.
  - intros p p' Hpp.
    destruct (Hmove p) as [-> _]. destruct (Hmove p') as [-> _].
    apply clamp_mono, drag_arg_antitone, Hpp.
  - intros p v.
    destruct (@deliver_move_in_drag _ binary64_Number kf p0f betweenf p Hwf) as [E1 E2].
    split; [exact E1|]. split; [exact E2|].
    apply binary64_clamp_range.
  - apply Qc_is_canon. reflexivity.
  - reflexivity.
Qed.

Lemma drag_sets_clamped_value_witness :
  forallb within_drag [PointerMove (of_int 70); Wheel (of_int 120)] = true /\
  forallb within_drag [PointerMove 70%float; Wheel 120%float] = true /\
  value (fst (deliver (PointerMove (of_int 50))
                (fst (run [PointerDown (of_int 100); PointerMove (of_int 70);
                           Wheel (of_int 120)] knob_3_10))))
  = fromDrag (Q2Qc (3 # 10)) (of_int 100) (of_int 50).
Proof.
  split; [reflexivity |]. split; [reflexivity |].
  exact (proj1 (proj1 (drag_sets_clamped_value knob_3_10 (of_int 100)
                         [PointerMove (of_int 70); Wheel (of_int 120)]
                         knob_3_10_binary64 100%float
                         [PointerMove 70%float; Wheel 120%float] eq_refl eq_refl)
                  (of_int 50))).
Defined.

(** The handler's wheel step is the specification's, section 4.1. *)
Lemma handleWheel_is_fromWheel (d : Qc) (k : knob Qc) :
  value (fst (handleWheel d k)) = fromWheel (value k) d.
Proof.
  unfold handleWheel, fromWheel; simpl. rewrite <- code_clamp_is_clamp. simpl.
  do 2 f_equal. apply Qc_is_canon. to_Q. ring.
Qed.

(** C3, as stated, fails: on a knob at 0 a wheel event with
    [deltaY = +120] does not give 0.3, in exact arithmetic or in
    binary64; the handler adds [120 * -0.0025 = -0.3] and clamps to 0. *)
Lemma wheel_plus_120_from_zero_is_not_0_3 :
  value (fst (handleWheel (of_int 120) knob_0)) <> Q2Qc (3 # 10) /\
  value (fst (@handleWheel _ binary64_Number 120%float knob_0_binary64)) <> 0.3%float.
Proof.
  split; intros H.
  - apply (f_equal this) in H. vm_compute in H. discriminate.
  - apply (f_equal (fun x => PrimFloat.eqb x 0.3)) in H. vm_compute in H. discriminate.
Qed.

(** C3, amended.  On a knob whose value is 0, a wheel event with
    [deltaY = +120] leaves the value at 0
    ([clamp(0 + 120 * -0.0025, 0, 2) = 0]) and a wheel event with
    [deltaY = -120] sets it to 0.3; each dispatches the new value.  In
    exact arithmetic and in binary64. *)
Theorem wheel_from_zero :
  forall (c : string) (a p v : Qc) (d : bool) (af pf vf : float),
    let k := Knob (of_int 0) c a p v d in
    let kf := Knob 0%float c af pf vf d in
    value (fst (handleWheel (of_int 120) k)) = of_int 0 /\
    snd (handleWheel (of_int 120) k) = [InputEvent (value (fst (handleWheel (of_int 120) k)))] /\
    value (fst (handleWheel (of_int (-120)) k)) = Q2Qc (3 # 10) /\
    snd (handleWheel (of_int (-120)) k)
    = [InputEvent (value (fst (handleWheel (of_int (-120)) k)))] /\
    @handleWheel _ binary64_Number 120%float kf
    = (Knob 0%float c af pf vf d, [InputEvent 0%float]) /\
    @handleWheel _ binary64_Number (-120)%float kf
    = (Knob 0.3%float c af pf vf d, [InputEvent 0.3%float]).
Proof.
  intros c a p v d af pf vf k kf. repeat split; apply Qc_is_canon; reflexivity.
Qed.

(** C9.  For every knob value and every audio level, the scale that
    [render] gives the halo is
    [MIN_HALO_SCALE + (value / 2) * (MAX_HALO_SCALE - MIN_HALO_SCALE)
     + level * HALO_LEVEL_MODIFIER], with the three constants 1, 2 and 1,
    so that it runs from [1 + level] at value 0 to [2 + level] at value
    2; assigning the audio level stores it, leaves the value alone and
    dispatches no event.  In exact arithmetic, and the formula also in
    binary64. *)
Theorem halo_scale_interpolates :
  (forall (k : knob Qc) (level : Qc),
      let k' := fst (set_audioLevel level k) in
      snd (set_audioLevel level k) = [] /\
      audioLevel k' = level /\
      value k' = value k /\
      render_scale k'
      = MIN_HALO_SCALE + (value k / of_int 2) * (MAX_HALO_SCALE - MIN_HALO_SCALE)
        + level * HALO_LEVEL_MODIFIER /\
      (value k = of_int 0 -> render_scale k' = of_int 1 + level) /\
      (value k = of_int 2 -> render_scale k' = of_int 2 + level)) /\
  (MIN_HALO_SCALE = of_int 1 :> Qc) /\
  (MAX_HALO_SCALE = of_int 2 :> Qc) /\
  (HALO_LEVEL_MODIFIER = of_int 1 :> Qc) /\
  (forall (k : knob float) (level : float),
      let k' := fst (set_audioLevel level k) in
      snd (set_audioLevel level k) = [] /\
      audioLevel k' = level /\
      value k' = value k /\
      @render_scale _ binary64_Number k'
      = (1 + (value k / 2) * (2 - 1) + level * 1)%float).
Proof.
  repeat split.
  - unfold render_scale; simpl. ring.
  - intros Hv. unfold render_scale; simpl. rewrite Hv.
    apply Qc_is_canon. to_Q. field.
  - intros Hv. unfold render_scale; simpl. rewrite Hv.
    apply Qc_is_canon. to_Q. field.
  - unfold render_scale; simpl.
    change (float_of_Z 1) with 1%float. change (float_of_Z 2) with 2%float.
    f_equal. apply float_add_comm.
Qed.

Lemma halo_scale_interpolates_witness :
  value knob_0 = of_int 0 /\
  render_scale (fst (set_audioLevel (Q2Qc (1 # 2)) knob_0)) = of_int 1 + Q2Qc (1 # 2).
Proof.
  split; [reflexivity |].
  exact (proj1 (proj2 (proj2 (proj2 (proj2
           (proj1 halo_scale_interpolates knob_0 (Q2Qc (1 # 2)))))))
           eq_refl).
Defined.

End WeightKnobSpec.

(* ================================================================== *)
(** * Properties of the host objects *)
(* ================================================================== *)

Module JsStringFacts.
Import JsString.

Lemma append_String (c : ascii) (s t : string) :
  (String c s ++ t)%string = String c (s ++ t)%string.
Proof. reflexivity. Qed.

Lemma trimStart_eq (s : string) :
  trimStart s = match white_space s with Some rest => trimStart rest | None => s end.
Proof.
  destruct s as [|c1 [|c2 [|c3 r3]]]; simpl; try reflexivity.
  - now destruct (one_byte c1).
  - destruct (one_byte c1); [reflexivity|]. now destruct (two_bytes c1 c2).
  - destruct (one_byte c1); [reflexivity|]. destruct (two_bytes c1 c2); [reflexivity|].
    now destruct (three_bytes c1 c2 c3).
Qed.

Lemma white_space_app (p r q : string) :
  white_space p = Some r -> white_space (p ++ q)%string = Some (r ++ q)%string.
Proof.
  destruct p as [|c1 [|c2 [|c3 r3]]]; simpl; try discriminate.
  - destruct (one_byte c1); [|discriminate]. now intros [= <-].
  - rewrite !append_String. simpl.
    destruct (one_byte c1); [now intros [= <-]|].
    destruct (two_bytes c1 c2); [now intros [= <-] | discriminate].
  - rewrite !append_String. simpl.
    destruct (one_byte c1); [now intros [= <-]|].
    destruct (two_bytes c1 c2); [now intros [= <-]|].
    destruct (three_bytes c1 c2 c3); [now intros [= <-] | discriminate].
Qed.

Lemma white_space_shorter (s r : string) :
  white_space s = Some r -> (String.length r < String.length s)%nat.
Proof.
  destruct s as [|c1 [|c2 [|c3 r3]]]; simpl; try discriminate.
  - destruct (one_byte c1); [|discriminate]. intros [= <-]. simpl. lia.
  - destruct (one_byte c1); [intros [= <-]; simpl; lia|].
    destruct (two_bytes c1 c2); [intros [= <-]; simpl; lia | discriminate].
  - destruct (one_byte c1); [intros [= <-]; simpl; lia|].
    destruct (two_bytes c1 c2); [intros [= <-]; simpl; lia|].
    destruct (three_bytes c1 c2 c3); [intros [= <-]; simpl; lia | discriminate].
Qed.

(** Induction over the strings, along [white_space]. *)
Lemma white_space_ind (P : string -> Prop) :
  (forall s, white_space s = None -> P s) ->
  (forall s r, white_space s = Some r -> P r -> P s) ->
  forall s, P s.
Proof.
  intros Hnone Hsome s.
  remember (String.length s) as n eqn:Hn.
  revert s Hn. induction n as [n IH] using lt_wf_ind. intros s ->.
  destruct (white_space s) as [r|] eqn:E; [|now apply Hnone].
  apply (Hsome s r E). apply (IH (String.length r)); [|reflexivity].
  now apply white_space_shorter.
Qed.

Lemma blank_spec (s : string) : blank s = true <-> trimStart s = EmptyString.
Proof. unfold blank. destruct (trimStart s); split; (reflexivity || discriminate). Qed.

Lemma blank_empty : blank EmptyString = true.
Proof. reflexivity. Qed.

(** White space in front of a string is skipped. *)
Lemma trimStart_app_blank (p q : string) :
  blank p = true -> trimStart (p ++ q)%string = trimStart q.
Proof.
  induction p as [p Hp | p r Hp IH] using white_space_ind; intros Hb.
  - apply blank_spec in Hb. rewrite trimStart_eq, Hp in Hb. now subst p.
  - rewrite (trimStart_eq (p ++ q)), (white_space_app _ _ q Hp).
    apply IH. apply blank_spec. apply blank_spec in Hb.
    now rewrite trimStart_eq, Hp in Hb.
Qed.

Lemma blank_app (p q : string) : blank p = true -> blank q = true -> blank (p ++ q)%string = true.
Proof.
  intros Hp Hq. apply blank_spec. rewrite (trimStart_app_blank p q Hp).
  now apply blank_spec.
Qed.

(** What [trimStart] leaves begins with no white space. *)
Lemma white_space_trimStart (s : string) : white_space (trimStart s) = None.
Proof.
  induction s as [s Hs | s r Hs IH] using white_space_ind.
  - now rewrite trimStart_eq, Hs.
  - now rewrite trimStart_eq, Hs.
Qed.

Lemma trimStart_no_white_space (s : string) : white_space s = None -> trimStart s = s.
Proof. intros H. now rewrite trimStart_eq, H. Qed.

Lemma trimStart_idempotent (s : string) : trimStart (trimStart s) = trimStart s.
Proof. apply trimStart_no_white_space, white_space_trimStart. Qed.

(** [trimEnd] cuts a blank rest off. *)
Lemma trimEnd_split (s : string) :
  exists q, s = (trimEnd s ++ q)%string /\ blank q = true.
Proof.
  induction s as [|c s IH]; [exists EmptyString; split; reflexivity|].
  cbn [trimEnd]. destruct (blank (String c s)) eqn:Hb.
  - exists (String c s). split; [reflexivity | exact Hb].
  - destruct IH as (q & Hq & Hbq). exists q. split; [|exact Hbq].
    rewrite append_String. now rewrite <- Hq.
Qed.

Lemma trimEnd_blank (s : string) : blank s = true -> trimEnd s = EmptyString.
Proof. destruct s as [|c s]; [reflexivity|]. cbn [trimEnd]. now intros ->. Qed.

Lemma blank_trimEnd (s : string) : blank (trimEnd s) = true -> trimEnd s = EmptyString.
Proof.
  intros Hb. destruct (trimEnd_split s) as (q & Hq & Hbq).
  apply trimEnd_blank. rewrite Hq. now apply blank_app.
Qed.

Lemma trimEnd_idempotent (s : string) : trimEnd (trimEnd s) = trimEnd s.
Proof.
  induction s as [|c s IH]; [reflexivity|].
  destruct (blank (String c s)) eqn:Hb.
  - now rewrite (trimEnd_blank _ Hb).
  - assert (trimEnd (String c s) = String c (trimEnd s)) as E
      by (cbn [trimEnd]; now rewrite Hb).
    rewrite E. cbn [trimEnd].
    destruct (blank (String c (trimEnd s))) eqn:Hb'.
    + rewrite <- E in Hb'. apply blank_trimEnd in Hb'. congruence.
    + now rewrite IH.
Qed.

Lemma white_space_trimEnd (s : string) :
  white_space s = None -> white_space (trimEnd s) = None.
Proof.
  intros Hs. destruct (white_space (trimEnd s)) as [r|] eqn:E; [|reflexivity].
  destruct (trimEnd_split s) as (q & Hq & _).
  apply (white_space_app _ _ q) in E. rewrite <- Hq in E. congruence.
Qed.

Lemma trim_idempotent (s : string) : trim (trim s) = trim s.
Proof.
  unfold trim.
  rewrite (trimStart_no_white_space (trimEnd (trimStart s))).
  - apply trimEnd_idempotent.
  - apply white_space_trimEnd, white_space_trimStart.
Qed.

Lemma trim_blank (s : string) : blank s = true -> trim s = EmptyString.
Proof. intros Hb. unfold trim. apply blank_spec in Hb. now rewrite Hb. Qed.

Lemma truthy_trim (name : string) : truthy (trim name) = true -> truthy name = true.
Proof. destruct name; [discriminate | reflexivity]. Qed.

(** A name is blank exactly when trimming leaves nothing. *)
Lemma truthy_trim_blank (s : string) : truthy (trim s) = negb (blank s).
Proof.
  unfold trim. destruct (blank s) eqn:Hb.
  - apply blank_spec in Hb. now rewrite Hb.
  - destruct (trimEnd (trimStart s)) eqn:E; [|reflexivity].
    assert (blank (trimStart s) = true) as Hb'.
    { destruct (trimStart s) as [|c t] eqn:Et; [reflexivity|].
      cbn [trimEnd] in E. destruct (blank (String c t)); [reflexivity | discriminate]. }
    apply blank_spec in Hb'. rewrite trimStart_idempotent in Hb'.
    apply blank_spec in Hb'. congruence.
Qed.

End JsStringFacts.

Module JsObjectFacts.
Import JsObject.

Lemma get_update_eq (k v : string) (o : object) :
  is_Some (get o k) -> get (update k v o) k = Some v.
Proof.
  induction o as [|[k' v'] rest IH]; simpl; intros [w Hw]; [discriminate|].
  destruct (String.eqb k' k) eqn:E; simpl; rewrite E; [reflexivity|].
  apply IH. eauto.
Qed.

Lemma get_insert_index_eq (n : N) (k v : string) (o : object) :
  get o k = None -> get (insert_index n k v o) k = Some v.
Proof.
  induction o as [|[k' v'] rest IH]; simpl; intros Hg.
  - now rewrite String.eqb_refl.
  - destruct (String.eqb k' k) eqn:E; [discriminate|].
    destruct (array_index k') as [n'|]; [destruct (n' <? n)%N|]; simpl;
      rewrite ?E, ?String.eqb_refl; auto.
Qed.

Lemma get_app_new (k v : string) (o : object) :
  get o k = None -> get (o ++ [(k, v)]) k = Some v.
Proof.
  induction o as [|[k' v'] rest IH]; simpl; intros Hg.
  - now rewrite String.eqb_refl.
  - destruct (String.eqb k' k); [discriminate | auto].
Qed.

(** Reading back the property that was just assigned. *)
Lemma get_set_eq (k v : string) (o : object) :
  assignable o k -> get (set k v o) k = Some v.
Proof.
  intros Ha. unfold set. destruct (get o k) eqn:Hg.
  - apply get_update_eq. rewrite Hg. eauto.
  - destruct Ha as [Hk | [w Hw]]; [|congruence].
    apply String.eqb_neq in Hk. rewrite Hk.
    destruct (array_index k); [now apply get_insert_index_eq | now apply get_app_new].
Qed.

(** An assignment to [__proto__] is swallowed by the setter of the
    prototype, unless the object has an own property of that name. *)
Lemma set_proto (v : string) (o : object) :
  get o "__proto__" = None -> set "__proto__" v o = o.
Proof. intros Hg. unfold set. now rewrite Hg. Qed.

Lemma set_not_assignable (k v : string) (o : object) :
  ~ assignable o k -> set k v o = o.
Proof.
  intros Hn. unfold set. destruct (get o k) eqn:Hg.
  - exfalso. apply Hn. right. eauto.
  - destruct (String.eqb_spec k "__proto__") as [_ | Hk]; [reflexivity|].
    exfalso. apply Hn. now left.
Qed.

Lemma assignable_dec (o : object) (k : string) : assignable o k \/ ~ assignable o k.
Proof.
  unfold assignable. destruct (String.eqb_spec k "__proto__") as [-> | Hk]; [|now left; left].
  destruct (get o "__proto__") eqn:Hg; [left; right; eauto|].
  right. intros [H | [w Hw]]; congruence.
Qed.




Lemma delete_absent (k : string) (o : object) :
  get o k = None -> delete k o = o.
Proof.
  unfold delete. induction o as [|[k0 v0] rest IH]; simpl; [reflexivity|].
  destruct (String.eqb k0 k); [discriminate|]. simpl. intros H. now rewrite IH.
Qed.

End JsObjectFacts.

Module JsMapFacts.
Import JsMap.

Section Facts.
Context {V : Type}.


(** Assigning to a key the value it already has changes nothing. *)
Lemma set_same (k : string) (v : V) (m : entries V) :
  get m k = Some v -> set k v m = m.
Proof.
  induction m as [|[k' v'] rest IH]; simpl; [discriminate|].
  destruct (String.eqb k' k) eqn:E; intros Hg.
  - now inversion Hg.
  - now rewrite IH.
Qed.



End Facts.
End JsMapFacts.

(* ================================================================== *)
(** * Properties of the prompt-state manager *)
(* ================================================================== *)

Module PromptDjMidiSpec.
Import PromptDjMidi PromptDjMidiSession.

Section Edits.
Context {num : Type}.
Implicit Types (st : state num) (detail : Prompt num).

Lemma fresh_map_unused st : maps st !! fresh (dom (maps st)) = None.
Proof. apply not_elem_of_dom, is_fresh. Qed.

(** What an edit of a known identifier does: the record found under
    the identifier is assigned in place, and a new [Map] object with
    the entries of the old one becomes current and is published. *)
Lemma handlePromptChanged_known detail st (l : loc) :
  JsMap.get (entries_at st (prompts st)) (promptId detail) = Some l ->
  handlePromptChanged detail st
  = (State (<[fresh (dom (maps st)) := entries_at st (prompts st)]> (maps st))
           (alter (assign (text detail) (weight detail) (cc detail)) l (objs st))
           (fresh (dom (maps st))) (presets st) (selectedPresetName st)
           (localStorage st) (console st) (S (updateRequests st)),
     [PromptsChanged (fresh (dom (maps st)))]).
Proof.
  intros Hg. unfold handlePromptChanged. rewrite Hg.
  unfold new_Map, requestUpdate, set_prompts, set_store, entries_at; simpl.
  rewrite lookup_insert_eq; simpl.
  fold (entries_at st (prompts st)).
  rewrite (JsMapFacts.set_same _ _ _ Hg), insert_insert_eq.
  reflexivity.
Qed.

(** C1, amended.  An edit of a known identifier makes current, and
    publishes, a [Map] object that did not exist before; every [Map]
    object that existed, the previously published one among them, is
    left as it was, and the new one holds the same identifiers, in the
    same order, with the same [Prompt] objects; every [Prompt] object
    other than the edited one keeps its values.  The [Prompt] object of
    the edited identifier is assigned in place, so the previous and the
    new collection show the same, new, text, weight and channel. *)
Theorem edit_swaps_collection_and_shares_record :
  forall detail st (m : JsMap.entries loc) (l : loc),
    maps st !! prompts st = Some m ->
    JsMap.get m (promptId detail) = Some l ->
    let st' := fst (handlePromptChanged detail st) in
    snd (handlePromptChanged detail st) = [PromptsChanged (prompts st')] /\
    maps st !! prompts st' = None /\
    prompts st' <> prompts st /\
    (forall m' : loc, m' <> prompts st' -> maps st' !! m' = maps st !! m') /\
    maps st' !! prompts st' = Some m /\
    (forall l' : loc, l' <> l -> objs st' !! l' = objs st !! l') /\
    objs st' !! l = assign (text detail) (weight detail) (cc detail) <$> objs st !! l /\
    view st' (prompts st) = view st' (prompts st').
Proof.
  intros detail st m l Hm Hg st'. subst st'.
  assert (entries_at st (prompts st) = m) as Hes.
  { unfold entries_at. now rewrite Hm. }
  rewrite <- Hes in Hg.
  rewrite (handlePromptChanged_known _ _ _ Hg); simpl.
  pose proof (fresh_map_unused st) as Hf.
  assert (fresh (dom (maps st)) <> prompts st) as Hne.
  { intros E. rewrite E, Hm in Hf. discriminate. }
  split; [reflexivity|]. split; [exact Hf|]. split; [exact Hne|].
  split; [intros m' Hm'; now rewrite lookup_insert_ne|].
  split; [now rewrite lookup_insert_eq, Hes|].
  split; [intros l' Hl'; now rewrite lookup_alter_ne|].
  split; [now rewrite lookup_alter_eq|].
  unfold view, entries_at; simpl.
  now rewrite lookup_insert_eq, lookup_insert_ne, Hm, <- Hes.
Qed.

(** C5.  An edit whose identifier is not a key of the current
    collection changes nothing but the console: the current [Map]
    reference, every [Map] object and every [Prompt] object stay as
    they were, no update is requested and no event is dispatched. *)
Theorem edit_unknown_identifier_is_noop :
  forall detail st,
    JsMap.get (entries_at st (prompts st)) (promptId detail) = None ->
    handlePromptChanged detail st = (console_error "prompt not found" st, []) /\
    let st' := fst (handlePromptChanged detail st) in
    prompts st' = prompts st /\
    maps st' = maps st /\
    objs st' = objs st /\
    updateRequests st' = updateRequests st /\
    snd (handlePromptChanged detail st) = [].
Proof.
  intros detail st Hg. unfold handlePromptChanged. rewrite Hg. simpl.
  repeat split; reflexivity.
Qed.

End Edits.

Section Presets.
Context {num : Type}.
Variable json : JSON num.
Implicit Types (st : state num).

(** The records that [JSON.parse] creates are new objects, in the
    order of the parsed array, and reading them gives the array. *)
Lemma alloc_entries_spec (es : list (string * Prompt num)) (os : gmap loc (Prompt num)) :
  os ⊆ snd (alloc_entries es os) /\
  read_entries (snd (alloc_entries es os)) (fst (alloc_entries es os)) = es /\
  map fst (fst (alloc_entries es os)) = map fst es.
Proof.
  revert os; induction es as [|[k p] rest IH]; intros os; simpl; [done|].
  specialize (IH (<[fresh (dom os) := p]> os)).
  destruct (alloc_entries rest _) as [ls os'] eqn:E; simpl in *.
  destruct IH as (Hsub & Hread & Hkeys).
  assert (os !! fresh (dom os) = None) as Hf by apply not_elem_of_dom, is_fresh.
  repeat split.
  - etrans; [apply insert_subseteq, Hf | exact Hsub].
  - unfold read_entries in *; simpl.
    rewrite (lookup_weaken _ _ _ _ (lookup_insert_eq os _ p) Hsub); simpl.
    now rewrite Hread.
  - now rewrite Hkeys.
Qed.


(** Loading a selected preset whose payload parses. *)
Lemma handleLoadPreset_parsed st (payload : string) (es : list (string * Prompt num)) :
  JsString.truthy (selectedPresetName st) = true ->
  JsObject.get (presets st) (selectedPresetName st) = Some payload ->
  JsString.truthy payload = true ->
  parse_entries json payload = Some es ->
  let ls := fst (alloc_entries es (objs st)) in
  let os := snd (alloc_entries es (objs st)) in
  let m := fresh (dom (maps st)) in
  let copy := fresh (dom (<[m := JsMap.of_entries ls]> (maps st))) in
  handleLoadPreset json st
  = (State (<[copy := JsMap.of_entries ls]> (<[m := JsMap.of_entries ls]> (maps st)))
           os m (presets st) (selectedPresetName st) (localStorage st)
           (console st) (S (updateRequests st)),
     [PromptsChanged copy]).
Proof.
  intros Hsel Hget Htruthy Hparse ls os m copy.
  unfold handleLoadPreset, JsObject.truthy_at.
  rewrite Hsel, Hget, Htruthy; simpl. rewrite Hparse; simpl.
  subst ls os. destruct (alloc_entries es (objs st)) as [ls os]; simpl.
  unfold entries_at; simpl. subst copy m. now rewrite lookup_insert_eq.
Qed.

(** What a save under a name that is not blank does. *)
Lemma handleSavePreset_named st (name : string) :
  JsString.truthy (JsString.trim name) = true ->
  handleSavePreset json (Some name) st
  = let o := JsObject.set (JsString.trim name)
                          (stringify_entries json (view st (prompts st))) (presets st) in
    State (maps st) (objs st) (prompts st) o (JsString.trim name)
          (<[storage_key := stringify_presets json o]> (localStorage st))
          (console st) (updateRequests st).
Proof.
  intros Hname. unfold handleSavePreset.
  now rewrite (JsStringFacts.truthy_trim _ Hname), Hname.
Qed.

(** Edits leave the presets and the selection alone. *)
Lemma edits_keep_presets (edits : list (Prompt num)) st :
  presets (fst (session json (map Edit edits) st)) = presets st /\
  selectedPresetName (fst (session json (map Edit edits) st)) = selectedPresetName st.
Proof.
  revert st. induction edits as [|d rest IH]; intros st; simpl; [auto|].
  assert (presets (fst (handlePromptChanged d st)) = presets st /\
          selectedPresetName (fst (handlePromptChanged d st)) = selectedPresetName st) as [H1 H2].
  { unfold handlePromptChanged. destruct (JsMap.get _ _); simpl; auto. }
  destruct (handlePromptChanged d st) as [st1 out1]; simpl in *.
  specialize (IH st1). destruct (session json (map Edit rest) st1) as [st2 out2]; simpl in *.
  destruct IH as [IH1 IH2]. split; congruence.
Qed.


(** C4, amended.  When the selected preset has a non-empty name and a
    non-empty payload on which [JSON.parse] throws, loading logs the
    failure and dispatches one ['error'] event with a readable
    message; the current collection, the store and the presets stay
    as they were, and no ['prompts-changed'] event is dispatched. *)
Theorem load_corrupt_preset_reports_error :
  forall st (payload : string),
    JsString.truthy (selectedPresetName st) = true ->
    JsObject.get (presets st) (selectedPresetName st) = Some payload ->
    JsString.truthy payload = true ->
    parse_entries json payload = None ->
    handleLoadPreset json st
    = (console_error "Failed to load preset" st,
       [ErrorEvent "Failed to load preset. It might be corrupted."]) /\
    let st' := fst (handleLoadPreset json st) in
    prompts st' = prompts st /\ maps st' = maps st /\ objs st' = objs st /\
    presets st' = presets st /\ updateRequests st' = updateRequests st.
Proof.
  intros st payload Hsel Hget Hpayload Hparse.
  unfold handleLoadPreset, JsObject.truthy_at.
  rewrite Hsel, Hget, Hpayload; simpl. rewrite Hparse; simpl.
  repeat split; reflexivity.
Qed.


(** C8, amended.  When [localStorage] holds under
    ["prompt-dj-presets"] a non-empty text on which [JSON.parse]
    throws, the constructor removes that key and nothing else from the
    store, logs the failure, and leaves the presets empty, the
    selection empty and the given collection current. *)
Theorem corrupt_store_is_cleared :
  forall (ms : gmap loc (JsMap.entries loc)) (os : gmap loc (Prompt num))
         (initialPrompts : loc) (ls : gmap string string) (stored : string),
    ls !! storage_key = Some stored ->
    JsString.truthy stored = true ->
    parse_presets json stored = None ->
    let st := constructor json ms os initialPrompts ls in
    localStorage st = delete storage_key ls /\
    localStorage st !! storage_key = None /\
    presets st = [] /\
    selectedPresetName st = EmptyString /\
    prompts st = initialPrompts /\ maps st = ms /\ objs st = os /\
    console st = ["Failed to parse presets from localStorage"].
Proof.
  intros ms os ip ls stored Hls Hstored Hparse st. subst st.
  unfold constructor, loadPresetsFromStorage; simpl.
  rewrite Hls, Hstored, Hparse; simpl.
  repeat split. apply lookup_delete_eq.
Qed.

(** C10.  When the text stored under ["prompt-dj-presets"] parses to
    an object with at least one key, the constructor takes the object
    as the presets and selects the first name that [Object.keys]
    gives for it; when nothing is stored, or the stored text does not
    parse, the selection stays empty and so do the presets. *)
Theorem startup_selects_first_stored_preset :
  forall (ms : gmap loc (JsMap.entries loc)) (os : gmap loc (Prompt num))
         (initialPrompts : loc) (ls : gmap string string),
    rejects_empty_text json ->
    let st := constructor json ms os initialPrompts ls in
    (forall (stored : string) (parsed : JsObject.object) (first : string)
            (others : list string),
        ls !! storage_key = Some stored ->
        parse_presets json stored = Some parsed ->
        JsObject.keys parsed = first :: others ->
        presets st = parsed /\ selectedPresetName st = first) /\
    (ls !! storage_key = None ->
     presets st = [] /\ selectedPresetName st = EmptyString) /\
    (forall stored : string,
        ls !! storage_key = Some stored ->
        parse_presets json stored = None ->
        presets st = [] /\ selectedPresetName st = EmptyString).
Proof.
  intros ms os ip ls [_ Hempty] st. subst st.
  unfold constructor, loadPresetsFromStorage; simpl.
  split; [|split].
  - intros stored parsed first others Hls Hparse Hkeys. rewrite Hls.
    destruct stored as [|c stored']; [congruence|]. simpl.
    rewrite Hparse; simpl. rewrite Hkeys; simpl. auto.
  - intros ->. auto.
  - intros stored Hls Hparse. rewrite Hls.
    destruct (JsString.truthy stored); [rewrite Hparse|]; simpl; auto.
Qed.

End Presets.

Import Scenario.

Lemma edit_unknown_identifier_is_noop_witness :
  JsMap.get (entries_at two_prompts (prompts two_prompts)) "Z" = None /\
  handlePromptChanged (mkPrompt "Z" "Dubstep" 2%Z 5%Z "#ffdd28") two_prompts
  = (console_error "prompt not found" two_prompts, []).
Proof.
  split; [reflexivity |].
  exact (proj1 (edit_unknown_identifier_is_noop
                  (mkPrompt "Z" "Dubstep" 2%Z 5%Z "#ffdd28") two_prompts eq_refl)).
Defined.



(** C4, as stated, fails: the selected preset ["first"] holds the empty
    text, on which [JSON.parse] throws, and loading it returns at the
    guard, dispatching no ['error'] event. *)
Lemma load_empty_payload_is_silent :
  let st := with_presets [("first", EmptyString)] in
  selectedPresetName st = "first" /\
  JsObject.get (presets st) "first" = Some EmptyString /\
  parse_entries host EmptyString = None /\
  handleLoadPreset host st = (st, []).
Proof. repeat split. Qed.

Lemma load_corrupt_preset_reports_error_witness :
  let st := with_presets [("first", cut_off)] in
  JsString.truthy cut_off = true /\
  parse_entries host cut_off = None /\
  handleLoadPreset host st
  = (console_error "Failed to load preset" st,
     [ErrorEvent "Failed to load preset. It might be corrupted."]).
Proof.
  split; [reflexivity |]. split; [reflexivity |].
  exact (proj1 (load_corrupt_preset_reports_error host
                  (with_presets [("first", cut_off)]) cut_off
                  eq_refl eq_refl eq_refl eq_refl)).
Defined.



(** C8, as stated, fails: the empty text stored under
    ["prompt-dj-presets"] is not JSON, and the constructor leaves it in
    the store. *)
Lemma empty_stored_text_is_not_cleared :
  let ls : gmap string string := {[ storage_key := EmptyString ]} in
  parse_presets host EmptyString = None /\
  localStorage (constructor host ∅ ∅ 0%nat ls) !! storage_key = Some EmptyString.
Proof. split; reflexivity. Qed.

Lemma corrupt_store_is_cleared_witness :
  let ls : gmap string string := {[ storage_key := cut_off ]} in
  parse_presets host cut_off = None /\
  localStorage (constructor host ∅ ∅ 0%nat ls) !! storage_key = None.
Proof.
  split; [reflexivity |].
  exact (proj1 (proj2 (corrupt_store_is_cleared host ∅ ∅ 0%nat
                         {[ storage_key := cut_off ]} cut_off
                         eq_refl eq_refl eq_refl))).
Defined.

Lemma startup_selects_first_stored_preset_witness :
  let ls : gmap string string := {[ storage_key := presets_text two_presets ]} in
  rejects_empty_text host /\
  parse_presets host (presets_text two_presets) = Some two_presets /\
  selectedPresetName (constructor host ∅ ∅ 0%nat ls) = "first".
Proof.
  split; [split; reflexivity |]. split; [reflexivity |].
  exact (proj2 (proj1 (startup_selects_first_stored_preset host ∅ ∅ 0%nat
                         {[ storage_key := presets_text two_presets ]}
                         (conj eq_refl eq_refl))
                  (presets_text two_presets) two_presets "first" ["second"]
                  eq_refl eq_refl eq_refl)).
Defined.

(** C1, as stated, fails.  With the collection [{A, B}] published as the
    [Map] object 0, the edit [(A, "Samba", weight 2, cc 5)] makes a new
    [Map] object current and publishes it, but a consumer that kept the
    old reference now reads the edited text, weight and channel through
    it: the record of A was assigned in place and both [Map] objects
    hold it. *)
Lemma edit_overwrites_published_record :
  let detail := mkPrompt "A" "Samba" 2%Z 5%Z "#9900ff" in
  let st' := fst (handlePromptChanged detail two_prompts) in
  view two_prompts 0%nat = [("A", bossa); ("B", chillwave)] /\
  prompts st' = 1%nat /\
  snd (handlePromptChanged detail two_prompts) = [PromptsChanged 1%nat] /\
  view st' 1%nat = [("A", detail); ("B", chillwave)] /\
  view st' 0%nat = [("A", detail); ("B", chillwave)] /\
  view st' 0%nat <> view two_prompts 0%nat.
Proof. vm_compute. repeat split. discriminate. Qed.

Lemma edit_swaps_collection_and_shares_record_witness :
  let detail := mkPrompt "A" "Samba" 2%Z 5%Z "#9900ff" in
  let st' := fst (handlePromptChanged detail two_prompts) in
  maps two_prompts !! prompts two_prompts = Some [("A", 0%nat); ("B", 1%nat)] /\
  JsMap.get [("A", 0%nat); ("B", 1%nat)] "A" = Some 0%nat /\
  prompts st' <> prompts two_prompts /\
  view st' (prompts two_prompts) = view st' (prompts st').
Proof.
  split; [reflexivity |]. split; [reflexivity |].
  pose proof (edit_swaps_collection_and_shares_record
                (mkPrompt "A" "Samba" 2%Z 5%Z "#9900ff") two_prompts
                [("A", 0%nat); ("B", 1%nat)] 0%nat eq_refl eq_refl) as H.
  split; [exact (proj1 (proj2 (proj2 H))) |].
  exact (proj2 (proj2 (proj2 (proj2 (proj2 (proj2 (proj2 H))))))).
Defined.

End PromptDjMidiSpec.

(* ================================================================== *)
(** * Further properties of the weight knob *)
(* ================================================================== *)

Module WeightKnobExtra.
Import JsNumber WeightKnob ValueMapper WeightKnobRender WeightKnobObserved Scenario WeightKnobSpec.

#[local] Open Scope Qc_scope.

Lemma code_clamp_range (x : Qc) :
  of_int 0 <= Math_max (of_int 0) (Math_min (of_int 2) x) <= of_int 2.
Proof. rewrite code_clamp_is_clamp. apply clamp_range. Qed.

Lemma binary64_clamp_nan (x : float) :
  is_nan x = true -> is_nan (float_max 0 (float_min 2 x)) = true.
Proof.
  intros H. unfold float_min. rewrite H, orb_true_r.
  unfold float_max. change (is_nan nan) with true. now rewrite orb_true_r.
Qed.

Lemma binary64_clamp_nan_or_range (x : float) :
  nan_or_in_range (InputEvent (float_max 0 (float_min 2 x))).
Proof.
  simpl. destruct (is_nan x) eqn:E.
  - left. now apply binary64_clamp_nan.
  - right. now apply binary64_clamp_range.
Qed.

Lemma deliver_events_in_range (i : input Qc) (k : knob Qc) :
  Forall in_range (snd (deliver i k)).
Proof.
  destruct i; simpl.
  - constructor.
  - destruct (dragging k); simpl; repeat constructor; apply code_clamp_range.
  - destruct (dragging k); simpl; constructor.
  - repeat constructor; apply code_clamp_range.
  - constructor.
Qed.

Lemma binary64_deliver_events (i : input float) (k : knob float) :
  Forall nan_or_in_range (snd (@deliver _ binary64_Number i k)).
Proof.
  destruct i; simpl.
  - constructor.
  - destruct (dragging k); simpl; constructor;
      [apply binary64_clamp_nan_or_range | constructor].
  - destruct (dragging k); simpl; constructor.
  - constructor; [apply binary64_clamp_nan_or_range | constructor].
  - constructor.
Qed.

(** X1.  Whatever reaches the knob, in whatever order and from whatever
    state, every value it dispatches lies in [0, 2]; in binary64 every
    dispatched value is NaN or lies in [0, 2]. *)
Theorem dispatched_values_in_range :
  (forall (inputs : list (input Qc)) (k : knob Qc),
      Forall in_range (snd (run inputs k))) /\
  (forall (inputs : list (input float)) (k : knob float),
      Forall nan_or_in_range (snd (@run _ binary64_Number inputs k))).
Proof.
  split.
  - induction inputs as [|i rest IH]; intros k; simpl; [constructor|].
    pose proof (deliver_events_in_range i k) as Hd.
    destruct (deliver i k) as [k1 out1]. specialize (IH k1).
    destruct (run rest k1) as [k2 out2]; simpl in *.
    apply Forall_app; auto.
  - induction inputs as [|i rest IH]; intros k; simpl; [constructor|].
    pose proof (binary64_deliver_events i k) as Hd.
    destruct (@deliver _ binary64_Number i k) as [k1 out1]. specialize (IH k1).
    destruct (@run _ binary64_Number rest k1) as [k2 out2]; simpl in *.
    apply Forall_app; auto.
Qed.

Section AnyNumber.
Context {num : Type} {N : Number num}.

Lemma deliver_mirrored (i : input num) (k : knob num) :
  mirrored (snd (deliver i k)) (value k) (value (fst (deliver i k))).
Proof.
  destruct i; simpl; try reflexivity.
  - destruct (dragging k); reflexivity.
  - destruct (dragging k); reflexivity.
Qed.

Lemma mirrored_app (out1 out2 : list (event num)) (a b c : num) :
  mirrored out1 a b -> mirrored out2 b c -> mirrored (out1 ++ out2) a c.
Proof.
  unfold mirrored. intros H1 H2.
  destruct out2 as [|e out2] using rev_ind.
  - rewrite app_nil_r. simpl in H2. subst c. exact H1.
  - rewrite app_assoc, !last_snoc in *. exact H2.
Qed.

(** X2.  The dispatched events tell the whole story of the value: after
    any inputs, the knob's value is the value carried by the last event
    it dispatched, and is unchanged when it dispatched none. *)
Theorem events_mirror_value :
  forall (inputs : list (input num)) (k : knob num),
    mirrored (snd (run inputs k)) (value k) (value (fst (run inputs k))).
Proof.
  induction inputs as [|i rest IH]; intros k; simpl; [reflexivity|].
  pose proof (deliver_mirrored i k) as Hd.
  destruct (deliver i k) as [k1 out1]. specialize (IH k1).
  destruct (run rest k1) as [k2 out2]; simpl in *.
  eapply mirrored_app; eauto.
Qed.

End AnyNumber.

Lemma deliver_value_in_range (i : input Qc) (k : knob Qc) :
  of_int 0 <= value k <= of_int 2 ->
  of_int 0 <= value (fst (deliver i k)) <= of_int 2.
Proof.
  intros Hk. destruct i; simpl; auto.
  - destruct (dragging k); simpl; [apply code_clamp_range | exact Hk].
  - destruct (dragging k); simpl; exact Hk.
  - apply code_clamp_range.
Qed.

(** X3.  A knob whose value lies in [0, 2] keeps its value in [0, 2]
    through every sequence of pointer, wheel and audio-level inputs. *)
Theorem value_stays_in_range :
  forall (inputs : list (input Qc)) (k : knob Qc),
    of_int 0 <= value k <= of_int 2 ->
    of_int 0 <= value (fst (run inputs k)) <= of_int 2.
Proof.
  induction inputs as [|i rest IH]; intros k Hk; simpl; [exact Hk|].
  pose proof (deliver_value_in_range i k Hk) as Hd.
  destruct (deliver i k) as [k1 out1]. specialize (IH k1 Hd).
  destruct (run rest k1) as [k2 out2]; simpl in *. exact IH.
Qed.

Lemma value_stays_in_range_witness :
  (of_int 0 <= value knob_3_10 <= of_int 2) /\
  (of_int 0
   <= value (fst (run [Wheel (of_int 4000); PointerDown (of_int 10);
                       PointerMove (of_int (-900)); PointerUp] knob_3_10))
   <= of_int 2).
Proof.
  assert (of_int 0 <= value knob_3_10 <= of_int 2) as H by (split; discriminate).
  split; [exact H |].
  exact (value_stays_in_range
           [Wheel (of_int 4000); PointerDown (of_int 10);
            PointerMove (of_int (-900)); PointerUp] knob_3_10 H).
Defined.

Section AnyNumberDrag.
Context {num : Type} {N : Number num}.

Lemma run_app (a b : list (input num)) (k : knob num) :
  run (a ++ b) k
  = (fst (run b (fst (run a k))), snd (run a k) ++ snd (run b (fst (run a k)))).
Proof.
  revert k; induction a as [|i a IH]; intros k; simpl.
  - now destruct (run b k).
  - destruct (deliver i k) as [k1 out1]. rewrite IH.
    destruct (run a k1) as [k2 out2]; simpl.
    destruct (run b k2) as [k3 out3]; simpl. now rewrite app_assoc.
Qed.

Lemma run_window_inputs_idle (inputs : list (input num)) (k : knob num) :
  dragging k = false ->
  forallb window_input inputs = true ->
  run inputs k = (k, []).
Proof.
  intros Hd. induction inputs as [|i rest IH]; simpl; [reflexivity|].
  intros [Hi Hrest]%andb_true_iff.
  destruct i; try discriminate; simpl; rewrite Hd, (IH Hrest); reflexivity.
Qed.

(** X5.  A pointer-up ends the drag: whatever came before it, the pointer
    moves and pointer-ups that follow it, up to the next pointer-down,
    change nothing and dispatch nothing. *)
Theorem pointer_up_ends_drag :
  forall (before after : list (input num)) (k : knob num),
    forallb window_input after = true ->
    let released := fst (run (before ++ [PointerUp]) k) in
    dragging released = false /\ run after released = (released, []).
Proof.
  intros before after k Hafter released.
  assert (dragging released = false) as Hd.
  { subst released. rewrite run_app; simpl.
    destruct (dragging (fst (run before k))) eqn:E; simpl; [reflexivity | exact E]. }
  split; [exact Hd | now apply run_window_inputs_idle].
Qed.

End AnyNumberDrag.

Lemma pointer_up_ends_drag_witness :
  let released :=
    fst (run ([PointerDown (of_int 100); PointerMove (of_int 50)] ++ [PointerUp]) knob_3_10) in
  forallb window_input [PointerMove (of_int 0); PointerUp; PointerMove (of_int 300)] = true /\
  run [PointerMove (of_int 0); PointerUp; PointerMove (of_int 300)] released = (released, []).
Proof.
  split; [reflexivity |].
  exact (proj2 (pointer_up_ends_drag
                  [PointerDown (of_int 100); PointerMove (of_int 50)]
                  [PointerMove (of_int 0); PointerUp; PointerMove (of_int 300)]
                  knob_3_10 eq_refl)).
Defined.

Lemma leb_refl (a : float) : is_nan a = false -> (a <=? a)%float = true.
Proof.
  intros Ha. destruct (a <? a)%float eqn:E; [now apply ltb_leb | now apply not_ltb_leb].
Qed.

Lemma SFleb_trans (a b c : spec_float) :
  SFleb a b = true -> SFleb b c = true -> SFleb a c = true.
Proof.
  unfold SFleb.
  destruct a as [sa|sa| |sa ma ea], b as [sb|sb| |sb mb eb], c as [sc|sc| |sc mc ec];
    simpl; try discriminate; try reflexivity;
    try (destruct sa; simpl; try discriminate; try reflexivity; fail);
    try (destruct sb; simpl; try discriminate; try reflexivity; fail);
    try (destruct sc; simpl; try discriminate; try reflexivity; fail);
    try (destruct sa, sb; simpl; try discriminate; try reflexivity; fail);
    try (destruct sa, sc; simpl; try discriminate; try reflexivity; fail);
    try (destruct sb, sc; simpl; try discriminate; try reflexivity; fail);
    try (destruct sa, sb, sc; simpl; try discriminate; try reflexivity; fail).
  change (Pos.compare_cont Eq ma mb) with (Pos.compare ma mb).
  change (Pos.compare_cont Eq mb mc) with (Pos.compare mb mc).
  change (Pos.compare_cont Eq ma mc) with (Pos.compare ma mc).
  destruct sa, sb, sc; simpl; try discriminate; try reflexivity;
    destruct (Z.compare_spec ea eb), (Z.compare_spec eb ec), (Z.compare_spec ea ec);
    simpl; try discriminate; try reflexivity; try lia;
    destruct (Pos.compare_spec ma mb), (Pos.compare_spec mb mc), (Pos.compare_spec ma mc);
    simpl; try discriminate; try reflexivity; try lia.
Qed.

Lemma leb_trans (a b c : float) :
  (a <=? b)%float = true -> (b <=? c)%float = true -> (a <=? c)%float = true.
Proof. rewrite !leb_spec. apply SFleb_trans. Qed.

(** [Math.min] and [Math.max] of two numbers that are not NaN: one of
    the two, below, respectively above, both. *)
Lemma float_min_cases (a b : float) :
  is_nan a = false -> is_nan b = false ->
  (float_min a b = a \/ float_min a b = b) /\
  (float_min a b <=? a)%float = true /\ (float_min a b <=? b)%float = true.
Proof.
  intros Ha Hb. unfold float_min. rewrite Ha, Hb. simpl.
  destruct (a <? b)%float eqn:E1.
  { split; [now left|]. split; [now apply leb_refl | now apply ltb_leb]. }
  destruct (b <? a)%float eqn:E2.
  { split; [now right|]. split; [now apply ltb_leb | now apply leb_refl]. }
  pose proof (not_ltb_leb a b Ha Hb E1) as Hba.
  pose proof (not_ltb_leb b a Hb Ha E2) as Hab.
  destruct (get_sign a).
  - split; [now left|]. split; [now apply leb_refl | exact Hab].
  - split; [now right|]. split; [exact Hba | now apply leb_refl].
Qed.

Lemma float_max_cases (a b : float) :
  is_nan a = false -> is_nan b = false ->
  (float_max a b = a \/ float_max a b = b) /\
  (a <=? float_max a b)%float = true /\ (b <=? float_max a b)%float = true.
Proof.
  intros Ha Hb. unfold float_max. rewrite Ha, Hb. simpl.
  destruct (a <? b)%float eqn:E1.
  { split; [now right|]. split; [now apply ltb_leb | now apply leb_refl]. }
  destruct (b <? a)%float eqn:E2.
  { split; [now left|]. split; [now apply leb_refl | now apply ltb_leb]. }
  pose proof (not_ltb_leb a b Ha Hb E1) as Hba.
  pose proof (not_ltb_leb b a Hb Ha E2) as Hab.
  destruct (get_sign a).
  - split; [now right|]. split; [exact Hab | now apply leb_refl].
  - split; [now left|]. split; [now apply leb_refl | exact Hba].
Qed.

Lemma float_min_nan (a b : float) :
  is_nan a = true \/ is_nan b = true -> float_min a b = nan.
Proof. unfold float_min. intros [-> | ->]; now rewrite ?orb_true_r. Qed.

Lemma float_max_nan (a b : float) :
  is_nan a = true \/ is_nan b = true -> float_max a b = nan.
Proof. unfold float_max. intros [-> | ->]; now rewrite ?orb_true_r. Qed.

(** [Math.max(0, Math.min(1, a, b))] is NaN or lies in [0, 1]. *)
Lemma binary64_unit_clamp (a b : float) :
  nan_or_between 0 1 (float_max 0 (float_min (float_min 1 a) b)).
Proof.
  unfold nan_or_between.
  destruct (is_nan a) eqn:Ha.
  { left. rewrite (float_min_nan 1 a) by now right.
    rewrite (float_min_nan nan b) by now left.
    now rewrite (float_max_nan 0 nan) by now right. }
  destruct (is_nan b) eqn:Hb.
  { left. rewrite (float_min_nan _ b) by now right.
    now rewrite (float_max_nan 0 nan) by now right. }
  right.
  destruct (float_min_cases 1 a eq_refl Ha) as (Hm & Hm1 & _).
  set (m := float_min 1 a) in *.
  assert (is_nan m = false) as Hmn by (destruct Hm as [-> | ->]; [reflexivity | exact Ha]).
  destruct (float_min_cases m b Hmn Hb) as (Hx & Hxm & _).
  set (x := float_min m b) in *.
  assert (is_nan x = false) as Hxn by (destruct Hx as [-> | ->]; assumption).
  assert ((x <=? 1)%float = true) as Hx1 by exact (leb_trans _ _ _ Hxm Hm1).
  destruct (float_max_cases 0 x eq_refl Hxn) as (Hr & Hr0 & _).
  split; [exact Hr0|]. destruct Hr as [-> | ->]; [reflexivity | exact Hx1].
Qed.

(** [Math.max(0, y)] is NaN or at least 0. *)
Lemma binary64_floor_at_zero (y : float) :
  is_nan (float_max 0 y) = true \/ (0 <=? float_max 0 y)%float = true.
Proof.
  destruct (is_nan y) eqn:Hy.
  - left. now rewrite (float_max_nan 0 y) by now right.
  - right. now destruct (float_max_cases 0 y eq_refl Hy) as (_ & H & _).
Qed.

(** X6.  The opacities of the two textures, as the engine computes them
    in binary64: for every value the grooved opacity is NaN or lies in
    [0, 1], and the akira opacity is NaN or at least 0.  The akira
    opacity is not capped at 1: at value 2, the top of the knob's range,
    it is 1.0000000000000002. *)
Theorem texture_opacities_in_binary64 :
  forall k : knob float,
    nan_or_between 0 1 (@groovedOpacity _ binary64_Number binary64_RenderNumber k) /\
    (is_nan (@akiraOpacity _ binary64_Number binary64_RenderNumber k) = true \/
     (0 <=? @akiraOpacity _ binary64_Number binary64_RenderNumber k)%float = true) /\
    (value k = 2%float ->
     @akiraOpacity _ binary64_Number binary64_RenderNumber k = 1.0000000000000002%float /\
     (1 <? @akiraOpacity _ binary64_Number binary64_RenderNumber k)%float = true).
Proof.
  intros [v c a p sv d]. unfold groovedOpacity, akiraOpacity. simpl.
  split; [apply binary64_unit_clamp|]. split; [apply binary64_floor_at_zero|].
  intros ->. split; reflexivity.
Qed.

End WeightKnobExtra.

(* ================================================================== *)
(** * Further properties of the prompt-state manager *)
(* ================================================================== *)

Module PromptDjMidiExtra.
Import PromptDjMidi PromptDjMidiSession Scenario.

Lemma get_set_ne (k k' v : string) (o : JsObject.object) :
  k' <> k -> JsObject.get (JsObject.set k v o) k' = JsObject.get o k'.
Proof.
  intros Hne. unfold JsObject.set.
  assert (forall o', JsObject.get (JsObject.update k v o') k' = JsObject.get o' k') as Hu.
  { induction o' as [|[k0 v0] rest IH]; simpl; [reflexivity|].
    destruct (String.eqb k0 k) eqn:E; simpl; [|now rewrite IH].
    apply String.eqb_eq in E; subst k0.
    destruct (String.eqb k k') eqn:E'; [|reflexivity].
    apply String.eqb_eq in E'. congruence. }
  assert (String.eqb k k' = false) as Hkk.
  { apply String.eqb_neq. congruence. }
  destruct (JsObject.get o k); [apply Hu|].
  destruct (String.eqb k "__proto__"); [reflexivity|].
  destruct (JsObject.array_index k) as [n|].
  - induction o as [|[k0 v0] rest IH]; simpl; [now rewrite Hkk|].
    destruct (JsObject.array_index k0) as [n0|]; [destruct (n0 <? n)%N|]; simpl;
      rewrite ?Hkk, ?IH; reflexivity.
  - induction o as [|[k0 v0] rest IH]; simpl; [now rewrite Hkk|].
    now rewrite IH.
Qed.

Lemma keys_update (k v : string) (o : JsObject.object) :
  JsObject.keys (JsObject.update k v o) = JsObject.keys o.
Proof.
  unfold JsObject.keys. induction o as [|[k0 v0] rest IH]; simpl; [reflexivity|].
  destruct (String.eqb k0 k); simpl; [reflexivity | now rewrite IH].
Qed.

Lemma keys_insert_index (n : N) (k v : string) (o : JsObject.object) :
  Permutation (JsObject.keys (JsObject.insert_index n k v o)) (k :: JsObject.keys o).
Proof.
  unfold JsObject.keys. induction o as [|[k0 v0] rest IH]; simpl; [reflexivity|].
  destruct (JsObject.array_index k0) as [n0|]; [destruct (n0 <? n)%N|]; simpl;
    try reflexivity.
  rewrite IH. apply perm_swap.
Qed.

Lemma get_is_Some_keys (k : string) (o : JsObject.object) :
  In k (JsObject.keys o) <-> is_Some (JsObject.get o k).
Proof.
  unfold JsObject.keys. induction o as [|[k0 v0] rest IH]; simpl.
  - split; [tauto | intros [? ?]; discriminate].
  - destruct (String.eqb k0 k) eqn:E.
    + apply String.eqb_eq in E. split; eauto.
    + apply String.eqb_neq in E. rewrite <- IH. tauto.
Qed.

Lemma get_None_keys (k : string) (o : JsObject.object) :
  JsObject.get o k = None <-> ~ In k (JsObject.keys o).
Proof.
  rewrite get_is_Some_keys. destruct (JsObject.get o k); split; intros H.
  - discriminate.
  - exfalso. apply H. eauto.
  - intros [? ?]; discriminate.
  - reflexivity.
Qed.

(** Removing the property that was just added gives the object back. *)
Lemma delete_set_new (k v : string) (o : JsObject.object) :
  JsObject.get o k = None -> JsObject.delete k (JsObject.set k v o) = o.
Proof.
  intros Hg. unfold JsObject.set. rewrite Hg.
  destruct (String.eqb k "__proto__"); [now apply JsObjectFacts.delete_absent|].
  destruct (JsObject.array_index k) as [n|].
  - revert Hg. unfold JsObject.delete.
    induction o as [|[k0 v0] rest IH]; simpl; intros Hg.
    + now rewrite String.eqb_refl.
    + destruct (String.eqb k0 k) eqn:E; [discriminate|].
      destruct (JsObject.array_index k0) as [n0|]; [destruct (n0 <? n)%N|]; simpl;
        rewrite ?E, ?String.eqb_refl; simpl; rewrite ?E; simpl.
      * now rewrite IH.
      * f_equal. now apply (JsObjectFacts.delete_absent k rest).
      * f_equal. now apply (JsObjectFacts.delete_absent k rest).
  - unfold JsObject.delete. rewrite List.filter_app; simpl.
    rewrite String.eqb_refl; simpl. rewrite app_nil_r.
    now apply (JsObjectFacts.delete_absent k o).
Qed.

Section Invariants.
Context {num : Type}.
Variable json : JSON num.
Implicit Types (st : state num).

Lemma perform_selection_valid (a : action num) st :
  selection_valid st -> selection_valid (fst (perform json a st)).
Proof.
  unfold selection_valid. intros Hv. destruct a as [detail|answer| |confirmed|i]; simpl.
  - unfold handlePromptChanged.
    destruct (JsMap.get _ _); simpl; exact Hv.
  - unfold handleSavePreset. destruct answer as [name|]; [|exact Hv].
    destruct (_ && _)%bool; [|exact Hv]. simpl. right.
    destruct (JsObjectFacts.assignable_dec (presets st) (JsString.trim name)) as [Ha | Hn].
    + left. rewrite (JsObjectFacts.get_set_eq _ _ _ Ha). eauto.
    + right. destruct (String.eqb_spec (JsString.trim name) "__proto__") as [E | E];
        [exact E | exfalso; apply Hn; now left].
  - unfold handleLoadPreset. destruct (_ || _)%bool; [exact Hv|].
    destruct (_ ≫= _) as [parsed|]; simpl; [|exact Hv].
    destruct (alloc_entries parsed (objs st)); simpl. exact Hv.
  - unfold handleDeletePreset. destruct (_ || _)%bool; [exact Hv|].
    destruct confirmed; [|exact Hv]. simpl.
    destruct (JsObject.delete (selectedPresetName st) (presets st)) as [|[k v] rest];
      simpl; [now left|].
    right. left. rewrite String.eqb_refl. eauto.
  - destruct (JsObject.keys (presets st) !! i) as [name|] eqn:E; simpl; [|exact Hv].
    right. left. apply get_is_Some_keys. apply list_elem_of_In.
    eapply list_elem_of_lookup_2. exact E.
Qed.

Lemma constructor_selection_valid (ms : gmap loc (JsMap.entries loc))
    (os : gmap loc (Prompt num)) (initialPrompts : loc) (ls : gmap string string) :
  selection_valid (constructor json ms os initialPrompts ls).
Proof.
  unfold selection_valid, constructor, loadPresetsFromStorage; simpl.
  destruct (ls !! storage_key) as [stored|]; [|now left].
  destruct (JsString.truthy stored); [|now left].
  destruct (parse_presets json stored) as [[|[k v] rest]|]; simpl; try (now left).
  right. left. rewrite String.eqb_refl. eauto.
Qed.

(** X7.  From the constructor on, and through every sequence of edits,
    saves, loads, deletions and picks in the preset select, the selected
    preset name is empty, or the name of a stored preset, or
    ["__proto__"].  The last case arises: a save under ["__proto__"],
    when the presets have no such key, selects the name and stores
    nothing. *)
Theorem selection_names_a_preset_or_proto :
  forall (ms : gmap loc (JsMap.entries loc)) (os : gmap loc (Prompt num))
         (initialPrompts : loc) (ls : gmap string string) (actions : list (action num)),
    selection_valid (fst (session json actions (constructor json ms os initialPrompts ls))) /\
    (forall st,
        JsObject.get (presets st) "__proto__" = None ->
        let st' := fst (perform json (Save (Some "__proto__")) st) in
        selectedPresetName st' = "__proto__" /\
        presets st' = presets st /\
        JsObject.get (presets st') (selectedPresetName st') = None).
Proof.
  intros ms os ip ls actions. split.
  - pose proof (constructor_selection_valid ms os ip ls) as H.
    revert H. generalize (constructor json ms os ip ls).
    induction actions as [|a rest IH]; intros st Hv; simpl; [exact Hv|].
    pose proof (perform_selection_valid a st Hv) as H1.
    destruct (perform json a st) as [st1 out1]. specialize (IH st1 H1).
    destruct (session json rest st1) as [st2 out2]. exact IH.
  - intros st Hg st'. subst st'. cbn [perform fst].
    unfold handleSavePreset.
    change (JsString.trim "__proto__") with "__proto__".
    change (JsString.truthy "__proto__") with true. cbn [andb].
    rewrite (JsObjectFacts.set_proto _ _ Hg). simpl. auto.
Qed.

Lemma perform_persisted (a : action num) st :
  persisted json st -> persisted json (fst (perform json a st)).
Proof.
  unfold persisted. intros Hp. destruct a as [detail|answer| |confirmed|i]; simpl.
  - unfold handlePromptChanged.
    destruct (JsMap.get _ _); simpl; exact Hp.
  - unfold handleSavePreset. destruct answer as [name|]; [|exact Hp].
    destruct (_ && _)%bool; [|exact Hp]. simpl. now rewrite lookup_insert_eq.
  - unfold handleLoadPreset. destruct (_ || _)%bool; [exact Hp|].
    destruct (_ ≫= _) as [parsed|]; simpl; [|exact Hp].
    destruct (alloc_entries parsed (objs st)); simpl. exact Hp.
  - unfold handleDeletePreset. destruct (_ || _)%bool; [exact Hp|].
    destruct confirmed; [|exact Hp]. simpl. now rewrite lookup_insert_eq.
  - destruct (JsObject.keys (presets st) !! i) as [name|]; simpl; exact Hp.
Qed.

(** X8.  Once [localStorage] holds the serialized presets, it holds them
    after every further sequence of edits, saves, loads, deletions and
    picks: no action changes the presets without persisting them, and
    none writes anything else under the key.  Every save under a name
    that is not blank brings this about. *)
Theorem presets_stay_persisted :
  forall (st : state num) (actions : list (action num)),
    persisted json st ->
    persisted json (fst (session json actions st)) /\
    (forall (st0 : state num) (name : string),
        JsString.truthy (JsString.trim name) = true ->
        persisted json (handleSavePreset json (Some name) st0)).
Proof.
  intros st actions Hp. split.
  - revert st Hp. induction actions as [|a rest IH]; intros st Hp; simpl; [exact Hp|].
    pose proof (perform_persisted a st Hp) as H1.
    destruct (perform json a st) as [st1 out1]. specialize (IH st1 H1).
    destruct (session json rest st1) as [st2 out2]. exact IH.
  - intros st0 name Hname. unfold persisted.
    rewrite (PromptDjMidiSpec.handleSavePreset_named json st0 name Hname). simpl.
    now rewrite lookup_insert_eq.
Qed.

End Invariants.

Section Saving.
Context {num : Type}.
Variable json : JSON num.
Implicit Types (st : state num).

(** X9.  Saving is a no-op, on the presets, the selection and
    [localStorage], when the dialog is cancelled or the name is empty or
    made of white space only, a no-break space (U+00A0) for one; and a
    name is saved under its trimmed form, so that names that differ
    only in surrounding white space address the same preset.  A name
    that is not blank becomes the selection in its trimmed form; it is
    stored with the serialized collection when the presets object can
    store it, and otherwise (["__proto__"]) the presets stay as they
    are. *)
Theorem save_trims_and_skips_blank_names :
  forall st,
    handleSavePreset json None st = st /\
    (forall name : string,
        JsString.blank name = true -> handleSavePreset json (Some name) st = st) /\
    handleSavePreset json (Some nbsp) st = st /\
    (forall name : string,
        handleSavePreset json (Some name) st
        = handleSavePreset json (Some (JsString.trim name)) st) /\
    (forall name : string,
        JsString.blank name = false ->
        let st' := handleSavePreset json (Some name) st in
        selectedPresetName st' = JsString.trim name /\
        (JsObject.assignable (presets st) (JsString.trim name) ->
         JsObject.get (presets st') (JsString.trim name)
         = Some (stringify_entries json (view st (prompts st)))) /\
        (~ JsObject.assignable (presets st) (JsString.trim name) ->
         presets st' = presets st)).
Proof.
  intros st.
  assert (forall name : string,
             JsString.blank name = true -> handleSavePreset json (Some name) st = st) as Hblank.
  { intros name Hb. unfold handleSavePreset.
    now rewrite (JsStringFacts.trim_blank name Hb), andb_false_r. }
  split; [reflexivity|]. split; [exact Hblank|].
  split; [apply Hblank; reflexivity|]. split.
  - intros name. unfold handleSavePreset. rewrite JsStringFacts.trim_idempotent.
    destruct (JsString.truthy (JsString.trim name)) eqn:Ht.
    + destruct name; [discriminate|]. reflexivity.
    + now rewrite !andb_false_r.
  - intros name Hb st'. subst st'.
    assert (JsString.truthy (JsString.trim name) = true) as Ht
      by now rewrite JsStringFacts.truthy_trim_blank, Hb.
    rewrite (PromptDjMidiSpec.handleSavePreset_named json st name Ht). simpl.
    split; [reflexivity|]. split.
    + intros Ha. now apply JsObjectFacts.get_set_eq.
    + intros Hn. now apply JsObjectFacts.set_not_assignable.
Qed.

(** X10.  A save under a name that is not blank, and that the presets
    object can store, stores the serialized current collection under
    the trimmed name and touches no other preset: a name that exists
    keeps its place in the key order, a new name adds one key; the
    prompt collection and the store of objects are not changed. *)
Theorem save_touches_one_preset :
  forall st (name : string),
    JsString.truthy (JsString.trim name) = true ->
    JsObject.assignable (presets st) (JsString.trim name) ->
    let key := JsString.trim name in
    let st' := handleSavePreset json (Some name) st in
    JsObject.get (presets st') key
    = Some (stringify_entries json (view st (prompts st))) /\
    (forall k : string, k <> key -> JsObject.get (presets st') k = JsObject.get (presets st) k) /\
    (is_Some (JsObject.get (presets st) key) ->
     JsObject.keys (presets st') = JsObject.keys (presets st)) /\
    (JsObject.get (presets st) key = None ->
     Permutation (JsObject.keys (presets st')) (key :: JsObject.keys (presets st))) /\
    prompts st' = prompts st /\ maps st' = maps st /\ objs st' = objs st.
Proof.
  intros st name Ht Ha key st'. subst st'.
  rewrite (PromptDjMidiSpec.handleSavePreset_named json st name Ht). simpl. fold key.
  split; [now apply JsObjectFacts.get_set_eq|].
  split; [intros k Hk; now apply get_set_ne|].
  split; [|split; [|auto]].
  - intros [v Hv]. unfold JsObject.set. rewrite Hv. apply keys_update.
  - intros Hn. unfold JsObject.set. rewrite Hn.
    destruct Ha as [Hk | [w Hw]]; [|fold key in Hw; congruence].
    fold key in Hk. apply String.eqb_neq in Hk. rewrite Hk.
    destruct (JsObject.array_index key) as [n|]; [apply keys_insert_index|].
    unfold JsObject.keys. rewrite map_app. simpl.
    symmetry. apply Permutation_cons_append.
Qed.

(** X11.  Saving under a name that is not yet a preset and then deleting
    the selected preset gives back the presets as they were, in their
    order; the selection then is their first name, or empty.  This
    holds for ["__proto__"] too, where the save stores nothing and the
    deletion removes nothing. *)
Theorem save_then_delete_restores_presets :
  forall st (name : string),
    JsString.truthy (JsString.trim name) = true ->
    JsObject.get (presets st) (JsString.trim name) = None ->
    JsString.truthy (stringify_entries json (view st (prompts st))) = true ->
    let st' := handleDeletePreset json true (handleSavePreset json (Some name) st) in
    presets st' = presets st /\
    selectedPresetName st' = hd EmptyString (JsObject.keys (presets st)) /\
    persisted json st'.
Proof.
  intros st name Ht Hnew Hpayload st'. subst st'.
  rewrite (PromptDjMidiSpec.handleSavePreset_named json st name Ht). simpl.
  set (key := JsString.trim name) in *.
  set (payload := stringify_entries json (view st (prompts st))) in *.
  unfold handleDeletePreset, JsObject.truthy_at, persisted. simpl. rewrite Ht. simpl.
  destruct (String.eqb_spec key "__proto__") as [E | E].
  - assert (JsObject.set key payload (presets st) = presets st) as ->.
    { unfold JsObject.set. rewrite Hnew. apply String.eqb_eq in E. now rewrite E. }
    assert (JsObject.inherited key = true) as Hinh by (rewrite E; reflexivity).
    rewrite Hnew, Hinh. simpl.
    rewrite (JsObjectFacts.delete_absent _ _ Hnew).
    split; [reflexivity|]. split; [now destruct (JsObject.keys _)|].
    now rewrite lookup_insert_eq.
  - rewrite JsObjectFacts.get_set_eq by now left. rewrite Hpayload. simpl.
    rewrite (delete_set_new _ _ _ Hnew).
    split; [reflexivity|]. split; [now destruct (JsObject.keys _)|].
    now rewrite lookup_insert_eq.
Qed.

(** X12.  What a session leaves in [localStorage] brings the presets
    back at the next start: the constructor, run on a store that holds
    the serialized presets, has the same presets, and selects their first
    name whatever was selected before; the host's [JSON] is assumed to
    read back the object it printed and to reject the empty text. *)
Theorem restart_restores_presets :
  forall st (ms : gmap loc (JsMap.entries loc)) (os : gmap loc (Prompt num))
         (initialPrompts : loc),
    rejects_empty_text json ->
    persisted json st ->
    parse_presets json (stringify_presets json (presets st)) = Some (presets st) ->
    let st' := constructor json ms os initialPrompts (localStorage st) in
    presets st' = presets st /\
    selectedPresetName st' = hd EmptyString (JsObject.keys (presets st)) /\
    prompts st' = initialPrompts.
Proof.
  intros st ms os ip [_ Hempty] Hp Hparse st'. subst st'.
  unfold constructor, loadPresetsFromStorage. simpl. rewrite Hp.
  destruct (stringify_presets json (presets st)) as [|c text] eqn:E; [congruence|].
  simpl. rewrite Hparse. simpl.
  destruct (JsObject.keys (presets st)) eqn:Ek; simpl; rewrite ?Ek; auto.
Qed.

End Saving.

Section Editing.
Context {num : Type}.
Implicit Types (st : state num) (detail : Prompt num).

Lemma read_entries_untouched (f : Prompt num -> Prompt num) (id : string) (l : loc)
    (os : gmap loc (Prompt num)) (m : JsMap.entries loc) (g : string * Prompt num -> string * Prompt num) :
  (forall e, fst e <> id -> g e = e) ->
  ~ In id (map fst m) -> ~ In l (map snd m) ->
  read_entries (alter f l os) m = map g (read_entries os m).
Proof.
  intros Hg. unfold read_entries.
  induction m as [|[k l'] rest IH]; simpl; intros Hk Hl; [reflexivity|].
  rewrite lookup_alter_ne by (intros E; apply Hl; now left).
  destruct (os !! l') as [p|]; simpl.
  - rewrite (Hg (k, p)) by (simpl; intros E; apply Hk; now left).
    f_equal. apply IH; tauto.
  - apply IH; tauto.
Qed.

Lemma read_entries_edited detail (l : loc) (os : gmap loc (Prompt num))
    (m : JsMap.entries loc) :
  List.NoDup (map fst m) -> List.NoDup (map snd m) ->
  JsMap.get m (promptId detail) = Some l ->
  read_entries (alter (assign (text detail) (weight detail) (cc detail)) l os) m
  = map (edited detail) (read_entries os m).
Proof.
  assert (forall e : string * Prompt num, fst e <> promptId detail -> edited detail e = e)
    as Hother.
  { intros e He. unfold edited. apply String.eqb_neq in He. now rewrite He. }
  induction m as [|[k l'] rest IH]; simpl; intros Hk Hl Hg; [discriminate|].
  inversion Hk as [|? ? Hk1 Hk2]; inversion Hl as [|? ? Hl1 Hl2]; subst.
  destruct (String.eqb k (promptId detail)) eqn:E.
  - inversion Hg; subst l'. apply String.eqb_eq in E. subst k.
    unfold read_entries at 1. simpl. rewrite lookup_alter_eq.
    unfold read_entries at 2. simpl.
    destruct (os !! l) as [p|]; simpl.
    + unfold edited at 1. simpl. rewrite String.eqb_refl. f_equal.
      apply (read_entries_untouched _ (promptId detail)); auto.
    + apply (read_entries_untouched _ (promptId detail)); auto.
  - assert (l' <> l) as Hne.
    { intros ->. apply Hl1. clear -Hg.
      induction rest as [|[k0 l0] rest IH]; simpl in *; [discriminate|].
      destruct (String.eqb k0 (promptId detail)); [inversion Hg; now left | right; auto]. }
    unfold read_entries at 1. simpl. rewrite lookup_alter_ne by congruence.
    unfold read_entries at 2. simpl.
    destruct (os !! l') as [p|]; simpl.
    + unfold edited at 1. simpl. rewrite E. f_equal. now apply IH.
    + now apply IH.
Qed.

(** X13.  Read through the current collection, an edit of a known
    identifier replaces the text, weight and channel of that
    identifier's entry by those of the event and changes nothing else:
    the identifiers, their order, every color and every other entry stay
    as they were. *)
Theorem edit_changes_one_entry :
  forall detail st (m : JsMap.entries loc) (l : loc),
    maps st !! prompts st = Some m ->
    List.NoDup (map fst m) ->
    List.NoDup (map snd m) ->
    JsMap.get m (promptId detail) = Some l ->
    let st' := fst (handlePromptChanged detail st) in
    view st' (prompts st') = map (edited detail) (view st (prompts st)) /\
    map fst (view st' (prompts st')) = map fst (view st (prompts st)) /\
    map (fun e => color (snd e)) (view st' (prompts st'))
    = map (fun e => color (snd e)) (view st (prompts st)).
Proof.
  intros detail st m l Hm Hk Hl Hg st'. subst st'.
  assert (entries_at st (prompts st) = m) as Hes.
  { unfold entries_at. now rewrite Hm. }
  rewrite <- Hes in Hg.
  rewrite (PromptDjMidiSpec.handlePromptChanged_known _ _ _ Hg); simpl.
  assert (view (State (<[fresh (dom (maps st)) := entries_at st (prompts st)]> (maps st))
                  (alter (assign (text detail) (weight detail) (cc detail)) l (objs st))
                  (fresh (dom (maps st))) (presets st) (selectedPresetName st)
                  (localStorage st) (console st) (S (updateRequests st)))
               (fresh (dom (maps st)))
          = map (edited detail) (view st (prompts st))) as Hview.
  { unfold view. simpl. unfold entries_at at 1. simpl.
    rewrite lookup_insert_eq. simpl. rewrite Hes in *.
    now apply read_entries_edited. }
  rewrite Hview. split; [reflexivity|]. rewrite !map_map. split.
  - apply map_ext. intros e. unfold edited. now destruct (String.eqb _ _).
  - apply map_ext. intros e. unfold edited. now destruct (String.eqb _ _).
Qed.



(** X15.  Two edits of the same prompt: the later one wins.  Read through
    the current collection, the result is that of the later edit alone. *)
Theorem later_edit_of_a_prompt_wins :
  forall (d1 d2 : Prompt num) st (m : JsMap.entries loc) (l : loc),
    maps st !! prompts st = Some m ->
    JsMap.get m (promptId d1) = Some l ->
    promptId d2 = promptId d1 ->
    let both := fst (handlePromptChanged d2 (fst (handlePromptChanged d1 st))) in
    let later := fst (handlePromptChanged d2 st) in
    view both (prompts both) = view later (prompts later) /\
    objs both = objs later.
Proof.
  intros d1 d2 st m l Hm H1 Hid both later. subst both later.
  assert (entries_at st (prompts st) = m) as Hes.
  { unfold entries_at. now rewrite Hm. }
  rewrite <- Hes in H1.
  assert (JsMap.get (entries_at st (prompts st)) (promptId d2) = Some l) as H2
    by now rewrite Hid.
  rewrite (PromptDjMidiSpec.handlePromptChanged_known d1 st l H1).
  rewrite (PromptDjMidiSpec.handlePromptChanged_known d2 st l H2). simpl.
  set (f := fresh (dom (maps st))) in *.
  set (s1 := State (<[f := entries_at st (prompts st)]> (maps st))
                   (alter (assign (text d1) (weight d1) (cc d1)) l (objs st))
                   f (presets st) (selectedPresetName st) (localStorage st)
                   (console st) (S (updateRequests st))).
  assert (entries_at s1 (prompts s1) = entries_at st (prompts st)) as E1.
  { unfold entries_at; simpl. now rewrite lookup_insert_eq. }
  rewrite <- E1 in H2.
  rewrite (PromptDjMidiSpec.handlePromptChanged_known d2 s1 l H2). simpl.
  assert (alter (assign (text d2) (weight d2) (cc d2)) l
            (alter (assign (text d1) (weight d1) (cc d1)) l (objs st))
          = alter (assign (text d2) (weight d2) (cc d2)) l (objs st)) as Hobjs.
  { apply map_eq. intros k. destruct (decide (k = l)) as [->|Hk].
    - rewrite !lookup_alter_eq. now destruct (objs st !! l).
    - now rewrite !lookup_alter_ne by congruence. }
  rewrite Hobjs. split; [|reflexivity].
  unfold view, entries_at; simpl. rewrite !lookup_insert_eq. reflexivity.
Qed.

End Editing.

Section Loading.
Context {num : Type}.
Variable json : JSON num.
Implicit Types (st : state num).

Lemma read_entries_weaken (os os' : gmap loc (Prompt num)) (m : JsMap.entries loc) :
  os ⊆ os' ->
  Forall (fun e => is_Some (os !! snd e)) m ->
  read_entries os' m = read_entries os m.
Proof.
  intros Hsub. unfold read_entries.
  induction 1 as [|[k l] rest [p Hp] _ IH]; simpl; [reflexivity|].
  simpl in Hp. rewrite Hp, (lookup_weaken _ _ _ _ Hp Hsub). simpl.
  f_equal. exact IH.
Qed.

(** X16.  A successful load replaces the collection wholesale: every
    [Map] and [Prompt] object that existed is still there with its
    content, so the previously current collection reads as before; the
    new current [Map] and the published [Map] are two new objects with
    the same entries; the presets, the selection and [localStorage] are
    not touched. *)
Theorem load_leaves_previous_collection :
  forall st (payload : string) (es : list (string * Prompt num)) (m : JsMap.entries loc),
    JsString.truthy (selectedPresetName st) = true ->
    JsObject.get (presets st) (selectedPresetName st) = Some payload ->
    JsString.truthy payload = true ->
    parse_entries json payload = Some es ->
    maps st !! prompts st = Some m ->
    Forall (fun e => is_Some (objs st !! snd e)) m ->
    let st' := fst (handleLoadPreset json st) in
    maps st ⊆ maps st' /\
    objs st ⊆ objs st' /\
    view st' (prompts st) = view st (prompts st) /\
    maps st !! prompts st' = None /\
    (exists copy : loc,
        snd (handleLoadPreset json st) = [PromptsChanged copy] /\
        copy <> prompts st' /\
        maps st !! copy = None /\
        maps st' !! copy = maps st' !! prompts st') /\
    presets st' = presets st /\
    selectedPresetName st' = selectedPresetName st /\
    localStorage st' = localStorage st.
Proof.
  intros st payload es m Hsel Hget Hpayload Hparse Hm Hwf st'. subst st'.
  rewrite (PromptDjMidiSpec.handleLoadPreset_parsed json st payload es
             Hsel Hget Hpayload Hparse). simpl.
  destruct (PromptDjMidiSpec.alloc_entries_spec es (objs st)) as (Hsub & _ & _).
  set (ls := fst (alloc_entries es (objs st))) in *.
  set (os := snd (alloc_entries es (objs st))) in *.
  set (m1 := fresh (dom (maps st))) in *.
  set (copy := fresh (dom (<[m1 := JsMap.of_entries ls]> (maps st)))) in *.
  assert (maps st !! m1 = None) as Hm1 by apply not_elem_of_dom, is_fresh.
  assert (<[m1 := JsMap.of_entries ls]> (maps st) !! copy = None) as Hcopy
    by apply not_elem_of_dom, is_fresh.
  assert (copy <> m1) as Hne.
  { intros E. rewrite E, lookup_insert_eq in Hcopy. discriminate. }
  assert (maps st !! copy = None) as Hcopy0.
  { now rewrite lookup_insert_ne in Hcopy by congruence. }
  split.
  { etrans; [apply (insert_subseteq _ m1 (JsMap.of_entries ls) Hm1)|].
    now apply insert_subseteq. }
  split; [exact Hsub|]. split.
  { unfold view, entries_at; simpl.
    assert (prompts st <> copy) as H1 by (intros E; rewrite E, Hcopy0 in Hm; discriminate).
    assert (prompts st <> m1) as H2 by (intros E; rewrite E, Hm1 in Hm; discriminate).
    rewrite !lookup_insert_ne by congruence. rewrite Hm; simpl.
    now apply read_entries_weaken. }
  split; [exact Hm1|]. split; [|auto].
  exists copy. split; [reflexivity|]. split; [exact Hne|]. split; [exact Hcopy0|].
  now rewrite lookup_insert_eq, lookup_insert_ne, lookup_insert_eq by congruence.
Qed.

End Loading.

Lemma presets_stay_persisted_witness :
  let st := handleSavePreset host (Some "evening") two_prompts in
  persisted host st /\
  persisted host (fst (session host [Save (Some " late "); Select 0; Delete true; Load] st)).
Proof.
  split; [reflexivity |].
  exact (proj1 (presets_stay_persisted host
                  (handleSavePreset host (Some "evening") two_prompts)
                  [Save (Some " late "); Select 0; Delete true; Load] eq_refl)).
Defined.

Lemma save_touches_one_preset_witness :
  let st := with_presets two_presets in
  let st' := handleSavePreset host (Some " second ") st in
  JsString.truthy (JsString.trim " second ") = true /\
  JsObject.get (presets st') "first" = JsObject.get (presets st) "first" /\
  JsObject.keys (presets st') = JsObject.keys (presets st).
Proof.
  split; [reflexivity |].
  assert (JsObject.assignable (presets (with_presets two_presets)) (JsString.trim " second "))
    as Ha by (left; discriminate).
  pose proof (save_touches_one_preset host (with_presets two_presets) " second " eq_refl Ha)
    as H.
  split.
  - refine (proj1 (proj2 H) "first" _). discriminate.
  - refine (proj1 (proj2 (proj2 H)) _). eexists. reflexivity.
Defined.

Lemma save_then_delete_restores_presets_witness :
  let st := with_presets two_presets in
  JsObject.get (presets st) (JsString.trim " third ") = None /\
  presets (handleDeletePreset host true (handleSavePreset host (Some " third ") st))
  = presets st.
Proof.
  split; [reflexivity |].
  exact (proj1 (save_then_delete_restores_presets host (with_presets two_presets)
                  " third " eq_refl eq_refl eq_refl)).
Defined.

Lemma restart_restores_presets_witness :
  let st := set_localStorage {[ storage_key := presets_text two_presets ]}
                             (set_selectedPresetName "second" (with_presets two_presets)) in
  let st' := constructor host ∅ ∅ 0%nat (localStorage st) in
  persisted host st /\
  presets st' = presets st /\ selectedPresetName st' = "first".
Proof.
  split; [reflexivity |].
  pose proof (restart_restores_presets host
                (set_localStorage {[ storage_key := presets_text two_presets ]}
                   (set_selectedPresetName "second" (with_presets two_presets)))
                ∅ ∅ 0%nat (conj eq_refl eq_refl) eq_refl eq_refl) as H.
  split; [exact (proj1 H) | exact (proj1 (proj2 H))].
Defined.

Lemma edit_changes_one_entry_witness :
  let detail := mkPrompt "B" "Samba" 2%Z 5%Z "#000000" in
  let st' := fst (handlePromptChanged detail two_prompts) in
  JsMap.get [("A", 0%nat); ("B", 1%nat)] "B" = Some 1%nat /\
  view st' (prompts st') = map (edited detail) (view two_prompts (prompts two_prompts)).
Proof.
  split; [reflexivity |].
  refine (proj1 (edit_changes_one_entry (mkPrompt "B" "Samba" 2%Z 5%Z "#000000") two_prompts
                   [("A", 0%nat); ("B", 1%nat)] 1%nat eq_refl _ _ eq_refl)).
  - repeat constructor; simpl; intuition discriminate.
  - repeat constructor; simpl; intuition discriminate.
Defined.


Lemma later_edit_of_a_prompt_wins_witness :
  let d1 := mkPrompt "A" "Samba" 2%Z 5%Z "#9900ff" in
  let d2 := mkPrompt "A" "Tango" 1%Z 7%Z "#9900ff" in
  let both := fst (handlePromptChanged d2 (fst (handlePromptChanged d1 two_prompts))) in
  let later := fst (handlePromptChanged d2 two_prompts) in
  JsMap.get [("A", 0%nat); ("B", 1%nat)] "A" = Some 0%nat /\
  view both (prompts both) = view later (prompts later).
Proof.
  split; [reflexivity |].
  exact (proj1 (later_edit_of_a_prompt_wins
                  (mkPrompt "A" "Samba" 2%Z 5%Z "#9900ff")
                  (mkPrompt "A" "Tango" 1%Z 7%Z "#9900ff")
                  two_prompts [("A", 0%nat); ("B", 1%nat)] 0%nat
                  eq_refl eq_refl eq_refl)).
Defined.

Lemma load_leaves_previous_collection_witness :
  let payload := entries_text [("A", bossa); ("B", chillwave)] in
  let st := with_presets [("first", payload)] in
  let st' := fst (handleLoadPreset host st) in
  parse_entries host payload = Some [("A", bossa); ("B", chillwave)] /\
  view st' (prompts st) = view st (prompts st) /\
  maps st !! prompts st' = None.
Proof.
  split; [reflexivity |].
  pose proof (load_leaves_previous_collection host
                (with_presets [("first", entries_text [("A", bossa); ("B", chillwave)])])
                (entries_text [("A", bossa); ("B", chillwave)])
                [("A", bossa); ("B", chillwave)] [("A", 0%nat); ("B", 1%nat)]
                eq_refl eq_refl eq_refl eq_refl eq_refl) as H.
  assert (Forall (fun e : string * nat => is_Some (objs two_prompts !! snd e))
                 [("A", 0%nat); ("B", 1%nat)]) as Hwf
    by (repeat constructor; simpl; eexists; reflexivity).
  specialize (H Hwf).
  split; [exact (proj1 (proj2 (proj2 H))) | exact (proj1 (proj2 (proj2 (proj2 H))))].
Defined.

End PromptDjMidiExtra.

(* ================================================================== *)
(** * Properties of what PromptDjMidi renders *)
(* ================================================================== *)

Module PromptDjMidiViewExtra.
Import JsNumber PromptDjMidi PromptDjMidiView.

Section Filtering.
Context {num : Type}.

(** X17.  Flagging a prompt text as filtered does not touch the prompt
    collection; it turns on the [filtered] attribute of exactly the
    controllers that show that text and leaves every other attribute of
    every controller as it was; flagging is idempotent and the order of
    two flaggings does not matter. *)
Theorem filtering_flags_controllers_by_text :
  forall (el : element num) (prompt other : string),
    core (addFilteredPrompt prompt el) = core el /\
    renderPrompts (addFilteredPrompt prompt el) = map (flagged prompt) (renderPrompts el) /\
    addFilteredPrompt prompt (addFilteredPrompt prompt el) = addFilteredPrompt prompt el /\
    addFilteredPrompt prompt (addFilteredPrompt other el)
    = addFilteredPrompt other (addFilteredPrompt prompt el).
Proof.
  intros el prompt other. split; [reflexivity|]. split; [|split].
  - unfold renderPrompts. simpl. rewrite map_map. apply map_ext. intros [k p].
    unfold flagged. simpl.
    destruct (String.eqb (text p) prompt) eqn:E.
    + apply String.eqb_eq in E. f_equal. apply bool_decide_eq_true. set_solver.
    + apply String.eqb_neq in E. f_equal. apply bool_decide_ext. set_solver.
  - unfold addFilteredPrompt. simpl. f_equal. set_solver.
  - unfold addFilteredPrompt. simpl. f_equal. set_solver.
Qed.

End Filtering.

Lemma is_nan_nan (x : float) : is_nan x = true -> x = nan.
Proof.
  intros H. apply Prim2SF_inj. change (Prim2SF nan) with S754_nan.
  unfold is_nan in H. rewrite FloatAxioms.eqb_spec in H. unfold SFeqb in H.
  destruct (Prim2SF x) as [s|s| |s m e]; try reflexivity; simpl in H;
    try (destruct s; discriminate).
  change (Pos.compare_cont Eq m m) with (Pos.compare m m) in H.
  rewrite Z.compare_refl, Pos.compare_refl in H. destruct s; discriminate.
Qed.

(** The four coordinates that a column or a row of the grid gets. *)
Lemma percent_of_thirds (a : nat) :
  (a < 4)%nat ->
  let c := (JsNumber.float_of_Z (Z.of_nat a) / 3 * 100)%float in
  (0 <=? c)%float = true /\ (c <=? 100)%float = true.
Proof.
  intros Ha. do 4 (destruct a as [|a]; [vm_compute; split; reflexivity|]). lia.
Qed.

Lemma percent_of_thirds_inj (a b : nat) :
  (a < 4)%nat -> (b < 4)%nat ->
  (JsNumber.float_of_Z (Z.of_nat a) / 3 * 100)%float
  = (JsNumber.float_of_Z (Z.of_nat b) / 3 * 100)%float ->
  a = b.
Proof.
  intros Ha Hb H. apply (f_equal Prim2SF) in H.
  do 4 (destruct a as [|a]; [do 4 (destruct b as [|b];
          [first [reflexivity | vm_compute in H; discriminate H]|]); lia|]).
  lia.
Qed.

(** X19.  One run of the function that [makeBackground] throttles, in
    binary64: it yields one gradient per prompt, in the order of the
    collection, each fading from the prompt's color with the alpha
    suffix to the fully transparent color of the prompt, and stopping
    at [weight / 2 * 100] percent.  For a prompt whose weight is NaN
    the suffix is the text [NaN], not a hexadecimal byte.  The first
    sixteen gradients have pairwise distinct centers, which lie inside
    the element (0% to 100% on both axes). *)
Theorem background_centers_are_distinct :
  forall st : state float,
    length (bg st) = length (view st (prompts st)) /\
    (forall i g,
        bg st !! i = Some g ->
        exists e, view st (prompts st) !! i = Some e /\
                  outer g = (color (snd e) ++ "00")%string /\
                  inner g = (color (snd e) ++ alpha (weight (snd e)))%string /\
                  stop_at g = (weight (snd e) / 2 * 100)%float /\
                  (is_nan (weight (snd e)) = true ->
                   inner g = (color (snd e) ++ "NaN")%string)) /\
    (forall i j gi gj,
        (i < 16)%nat -> (j < 16)%nat ->
        bg st !! i = Some gi ->
        bg st !! j = Some gj ->
        at_x gi = at_x gj -> at_y gi = at_y gj -> i = j) /\
    (forall i g,
        (i < 16)%nat ->
        bg st !! i = Some g ->
        ((0 <=? at_x g)%float = true /\ (at_x g <=? 100)%float = true) /\
        ((0 <=? at_y g)%float = true /\ (at_y g <=? 100)%float = true)).
Proof.
  intros st. unfold bg.
  assert (forall i g,
             imap (fun i e => gradient_of i (snd e)) (view st (prompts st)) !! i = Some g ->
             exists e, view st (prompts st) !! i = Some e /\ g = gradient_of i (snd e)) as Hat.
  { intros i g H. rewrite list_lookup_imap in H.
    destruct (view st (prompts st) !! i) as [e|]; [|discriminate].
    simpl in H. exists e. split; congruence. }
  assert (forall i, (i < 16)%nat -> (i mod 4 < 4)%nat /\ (i / 4 < 4)%nat) as Hgrid.
  { intros i Hi. split; [apply Nat.mod_upper_bound; lia|].
    apply Nat.Div0.div_lt_upper_bound; lia. }
  split; [apply length_imap|]. split; [|split].
  - intros i g H. apply Hat in H as (e & He & ->). exists e.
    split; [exact He|]. split; [reflexivity|]. split; [reflexivity|].
    split; [reflexivity|].
    intros Hnan. apply is_nan_nan in Hnan. unfold gradient_of. cbn [inner].
    rewrite Hnan. reflexivity.
  - intros i j gi gj Hi Hj Hgi Hgj Hx Hy.
    apply Hat in Hgi as (ei & _ & ->). apply Hat in Hgj as (ej & _ & ->).
    unfold gradient_of in Hx, Hy. cbn [at_x at_y] in Hx, Hy.
    destruct (Hgrid i Hi) as [Hi1 Hi2]. destruct (Hgrid j Hj) as [Hj1 Hj2].
    apply percent_of_thirds_inj in Hx; [|assumption..].
    apply percent_of_thirds_inj in Hy; [|assumption..].
    pose proof (Nat.div_mod_eq i 4). pose proof (Nat.div_mod_eq j 4). lia.
  - intros i g Hi H. apply Hat in H as (e & _ & ->).
    unfold gradient_of. cbn [at_x at_y].
    destruct (Hgrid i Hi) as [Hi1 Hi2].
    split; apply percent_of_thirds; assumption.
Qed.

End PromptDjMidiViewExtra.

(* ================================================================== *)
(** * Properties of the tempo slider *)
(* ================================================================== *)

Module PromptDjMidiBpmExtra.
Import PromptDjMidiBpm.

Lemma leading_digits_stop (rest : string) (acc : option N) :
  starts_with_digit rest = false -> leading_digits rest acc = acc.
Proof.
  destruct rest as [|c rest]; simpl; [reflexivity|].
  now destruct (JsObject.digit c).
Qed.

Lemma leading_digits_acc (d : Decimal.uint) (rest : string) (acc : positive) :
  starts_with_digit rest = false ->
  leading_digits (NilEmpty.string_of_uint d ++ rest) (Some (N.pos acc))
  = Some (N.pos (Pos.of_uint_acc d acc)).
Proof.
  intros Hrest. revert acc.
  induction d as [|d IH|d IH|d IH|d IH|d IH|d IH|d IH|d IH|d IH|d IH]; intros acc;
    [apply leading_digits_stop, Hrest | ..];
    cbn [NilEmpty.string_of_uint Pos.of_uint_acc]; rewrite JsStringFacts.append_String;
    cbn [leading_digits];
    match goal with
    | |- context [JsObject.digit ?c] =>
        let v := eval vm_compute in (JsObject.digit c) in
        change (JsObject.digit c) with v
    end;
    unfold default, from_option, id; rewrite <- IH; do 2 f_equal; lia.
Qed.

Lemma leading_digits_zero (d : Decimal.uint) (rest : string) :
  starts_with_digit rest = false ->
  leading_digits (NilEmpty.string_of_uint d ++ rest) (Some 0%N) = Some (Pos.of_uint d).
Proof.
  intros Hrest.
  induction d as [|d IH|d IH|d IH|d IH|d IH|d IH|d IH|d IH|d IH|d IH];
    [apply leading_digits_stop, Hrest | ..];
    cbn [NilEmpty.string_of_uint Pos.of_uint]; rewrite JsStringFacts.append_String; cbn [leading_digits];
    match goal with
    | |- context [JsObject.digit ?c] =>
        let v := eval vm_compute in (JsObject.digit c) in
        change (JsObject.digit c) with v
    end;
    unfold default, from_option, id; try exact IH;
    apply (leading_digits_acc d rest _ Hrest).
Qed.

Lemma leading_digits_decimal (n : N) (rest : string) :
  starts_with_digit rest = false ->
  leading_digits (decimal n ++ rest) None = Some n.
Proof.
  intros Hrest. unfold decimal.
  rewrite <- (DecimalN.Unsigned.of_to n) at 2. unfold N.of_uint.
  assert (N.to_uint n <> Decimal.Nil) as Hnil.
  { destruct n; simpl; [discriminate | apply DecimalPos.Unsigned.to_uint_nonnil]. }
  destruct (N.to_uint n) as [|d|d|d|d|d|d|d|d|d|d]; [congruence | ..];
    cbn [NilZero.string_of_uint NilEmpty.string_of_uint Pos.of_uint];
    rewrite JsStringFacts.append_String; cbn [leading_digits];
    match goal with
    | |- context [JsObject.digit ?c] =>
        let v := eval vm_compute in (JsObject.digit c) in
        change (JsObject.digit c) with v
    end;
    unfold default, from_option, id;
    first [ apply (leading_digits_zero d rest Hrest)
          | apply (leading_digits_acc d rest _ Hrest) ].
Qed.

Lemma decimal_head (n : N) :
  exists c s, decimal n = String c s /\ is_Some (JsObject.digit c).
Proof.
  unfold decimal.
  assert (N.to_uint n <> Decimal.Nil) as Hnil.
  { destruct n; simpl; [discriminate | apply DecimalPos.Unsigned.to_uint_nonnil]. }
  destruct (N.to_uint n) as [|d|d|d|d|d|d|d|d|d|d]; [congruence | ..];
    simpl; eexists _, _; (split; [reflexivity | vm_compute; eauto]).
Qed.

Lemma digit_is_no_prefix (c : ascii) (s : string) :
  is_Some (JsObject.digit c) ->
  JsString.white_space (String c s) = None /\ c <> "-"%char /\ c <> "+"%char.
Proof.
  intros [d Hd].
  assert (JsString.one_byte c = false /\
          (forall c2, JsString.two_bytes c c2 = false) /\
          (forall c2 c3, JsString.three_bytes c c2 c3 = false) /\
          c <> "-"%char /\ c <> "+"%char) as (H1 & H2 & H3 & Hm & Hp).
  { destruct c as [[] [] [] [] [] [] [] []]; vm_compute in Hd; try discriminate Hd;
      (split; [reflexivity|]; split; [reflexivity|]; split; [reflexivity|];
       split; discriminate). }
  split; [|now split].
  unfold JsString.white_space. rewrite H1.
  destruct s as [|c2 [|c3 r]]; [reflexivity | now rewrite H2 | now rewrite H2, H3].
Qed.

(** X20.  The tempo becomes the number nearest to the integer that the
    slider's text begins with (the integer itself below 2^53), and that
    number is dispatched: white space before the number, a no-break
    space for one, and whatever follows its digits (a fraction, a
    unit), are ignored, and one sign is read.  The previous tempo plays
    no part.  The integer has at most twenty digits, within which every
    engine reads all of them. *)
Theorem bpm_is_leading_integer_of_text :
  forall (ws rest : string) (n : N) (old : float),
    JsString.blank ws = true ->
    starts_with_digit rest = false ->
    (n < 10 ^ 20)%N ->
    handleBpmChange (ws ++ decimal n ++ rest) old
    = (JsNumber.float_of_Z (Z.of_N n), [BpmChanged (JsNumber.float_of_Z (Z.of_N n))]) /\
    parseInt (ws ++ "+" ++ decimal n ++ rest) = JsNumber.float_of_Z (Z.of_N n) /\
    parseInt (ws ++ "-" ++ decimal n ++ rest)
    = (if (n =? 0)%N then (-0)%float else JsNumber.float_of_Z (- Z.of_N n)).
Proof.
  intros ws rest n old Hws Hrest _.
  destruct (decimal_head n) as (c & s & Hhead & Hdigit).
  pose proof (leading_digits_decimal n rest Hrest) as Hval.
  unfold handleBpmChange, parseInt.
  split; [|split]; rewrite !(JsStringFacts.trimStart_app_blank ws) by exact Hws.
  - rewrite Hhead, JsStringFacts.append_String in *.
    destruct (digit_is_no_prefix c (s ++ rest)%string Hdigit) as (Hc & Hminus & Hplus).
    rewrite (JsStringFacts.trimStart_no_white_space _ Hc).
    assert (unsigned (String c (s ++ rest)) = String c (s ++ rest)) as ->.
    { unfold unsigned. destruct c as [[] [] [] [] [] [] [] []]; congruence. }
    assert (negative (String c (s ++ rest)) = false) as ->.
    { unfold negative. destruct c as [[] [] [] [] [] [] [] []]; congruence. }
    now rewrite Hval.
  - change ("+" ++ decimal n ++ rest)%string with (String "+" (decimal n ++ rest)%string).
    rewrite JsStringFacts.trimStart_no_white_space by
      (destruct (decimal n ++ rest)%string as [|c2 [|c3 r]]; reflexivity).
    cbn [unsigned negative]. now rewrite Hval.
  - change ("-" ++ decimal n ++ rest)%string with (String "-" (decimal n ++ rest)%string).
    rewrite JsStringFacts.trimStart_no_white_space by
      (destruct (decimal n ++ rest)%string as [|c2 [|c3 r]]; reflexivity).
    cbn [unsigned negative]. now rewrite Hval.
Qed.

Lemma bpm_is_leading_integer_of_text_witness :
  JsString.blank (Scenario.nbsp ++ " ") = true /\
  starts_with_digit ".5 bpm" = false /\
  handleBpmChange (Scenario.nbsp ++ " 120.5 bpm") 144%float = (120%float, [BpmChanged 120%float]).
Proof.
  split; [reflexivity |]. split; [reflexivity |].
  exact (proj1 (bpm_is_leading_integer_of_text (Scenario.nbsp ++ " ") ".5 bpm" 120%N 144%float
                  eq_refl eq_refl eq_refl)).
Defined.

Lemma leading_digits_is_Some (s : string) (acc : option N) :
  starts_with_digit s = true -> is_Some (leading_digits s acc).
Proof.
  revert acc. induction s as [|c s IH]; intros acc; simpl; [discriminate|].
  destruct (JsObject.digit c) as [d|]; [|discriminate]. intros _.
  destruct (starts_with_digit s) eqn:E; [now apply IH|].
  rewrite (leading_digits_stop s _ E). eauto.
Qed.

(** X21.  When the text, after leading white space and one sign, does
    not begin with a digit (the empty text, a lone sign, a text that
    begins with a point or a letter), the tempo becomes NaN and NaN is
    dispatched; otherwise the tempo is the number nearest to an
    integer, or -0.  The handler always dispatches the value it has
    just stored, never the previous tempo. *)
Theorem bpm_is_NaN_without_leading_digit :
  forall (value : string) (old : float),
    (starts_with_digit (unsigned (JsString.trimStart value)) = false ->
     handleBpmChange value old = (nan, [BpmChanged nan])) /\
    (starts_with_digit (unsigned (JsString.trimStart value)) = true ->
     fst (handleBpmChange value old) = (-0)%float \/
     exists z : Z, fst (handleBpmChange value old) = JsNumber.float_of_Z z) /\
    snd (handleBpmChange value old) = [BpmChanged (fst (handleBpmChange value old))] /\
    handleBpmChange EmptyString old = (nan, [BpmChanged nan]) /\
    handleBpmChange "-" old = (nan, [BpmChanged nan]) /\
    handleBpmChange ".5" old = (nan, [BpmChanged nan]).
Proof.
  intros value old. split; [|split; [|repeat split]].
  - intros E. unfold handleBpmChange, parseInt.
    now rewrite (leading_digits_stop _ None E).
  - intros E. unfold handleBpmChange, parseInt. cbn [fst].
    destruct (leading_digits_is_Some _ None E) as [m ->].
    destruct (negative _); [destruct (m =? 0)%N|]; eauto.
Qed.

End PromptDjMidiBpmExtra.
